(** * Synaptic: the PDF text and image extractors

    A shallow embedding of [scripts/extract-pdf-pymupdf.py] and
    [scripts/extract-pdf-images.py], and the properties their
    specification states about them.

    Python values are embedded as follows.
    - [str] is a list of Unicode code points, so that [len] counts
      characters the way Python does.
    - [bytes] is a list of [Byte.byte].
    - The dictionaries the scripts build ad hoc are association lists in
      insertion order, the order [json.dumps] prints them in.
    - PyMuPDF is an environment: [fitz.open] is a function of the path that
      either raises or yields a document; a document is the list of its
      pages together with [extract_image]; a page carries its text, its
      image list and [get_image_rects].  Per-image calls may raise, as the
      inner [try] of the image extractor expects.  The calls of the outer
      [try] block ([len(doc)], [doc[page_num]], [page.get_text()],
      [page.get_images(full=True)], [doc.close()]) return on a document
      that [fitz.open] gives as [Opened], and raise as its faults say on
      one it gives as [OpenedFaulty]; an exception they raise goes to the
      handlers of the outer [try].  [len(doc)] leaves no entry in the
      trace.
    - Every library call, file write and [print] is recorded in a trace of
      effects, in program order; [print(json.dumps(result))] is recorded by
      the value it serialises. *)

From Stdlib Require Import ZArith NArith Bool String Ascii List Lia.
From Stdlib Require Import Floats DecimalString.
From Stdlib.Strings Require Import Byte.
From Stdlib Require DecimalZ DecimalPos.
Import ListNotations.

Local Open Scope string_scope.
Local Open Scope list_scope.
Local Open Scope Z_scope.

(** ** Python strings *)

Module PyStr.

Definition char := N.
Definition str := list char.

(** A literal of the source, as code points. *)
Definition lit (s : string) : str := map N_of_ascii (list_ascii_of_string s).

Definition len {A} (s : list A) : Z := Z.of_nat (length s).

(** [str.isspace] on one character (CPython's whitespace table). *)
Definition isspace (c : char) : bool :=
  (((9 <=? c) && (c <=? 13)) || ((28 <=? c) && (c <=? 32))
   || (c =? 133) || (c =? 160) || (c =? 5760)
   || ((8192 <=? c) && (c <=? 8202))
   || (c =? 8232) || (c =? 8233) || (c =? 8239) || (c =? 8287)
   || (c =? 12288))%N.

Fixpoint lstrip (s : str) : str :=
  match s with
  | [] => []
  | c :: r => if isspace c then lstrip r else s
  end.

Definition rstrip (s : str) : str := rev (lstrip (rev s)).

Definition strip (s : str) : str := rstrip (lstrip s).

(** Truth value of a string: non-empty. *)
Definition truthy (s : str) : bool :=
  match s with [] => false | _ :: _ => true end.

(** [sep.join(parts)] *)
Fixpoint join (sep : str) (parts : list str) : str :=
  match parts with
  | [] => []
  | p :: rest =>
      match rest with
      | [] => p
      | _ :: _ => p ++ sep ++ join sep rest
      end
  end.

(** One bound of a slice: negative indices count from the end, and the
    result is clamped to [0, len]. *)
Definition slice_bound (n i : Z) : Z :=
  let j := if i <? 0 then i + n else i in
  Z.min n (Z.max 0 j).

(** [s[a:b]] *)
Definition slice {A} (s : list A) (a b : Z) : list A :=
  let n := len s in
  let lo := slice_bound n a in
  let hi := slice_bound n b in
  firstn (Z.to_nat (hi - lo)) (skipn (Z.to_nat lo) s).

(** [str(n)] for an integer, as in an f-string. *)
Definition str_of_int (n : Z) : str := lit (NilZero.string_of_int (Z.to_int n)).

(** [needle in s] *)
Fixpoint starts_with (p s : str) : bool :=
  match p, s with
  | [], _ => true
  | _ :: _, [] => false
  | a :: p', b :: s' => (a =? b)%N && starts_with p' s'
  end.


End PyStr.
Import PyStr.

Definition bytes := list byte.

(** ** Python values and dictionaries *)

#[local] Unset Elimination Schemes.

Inductive pyval : Type :=
| PNone
| PBool (b : bool)
| PInt (z : Z)
| PFloat (f : float)
| PStr (s : str)
| PList (l : list pyval)
| PDict (d : list (string * pyval)).

#[local] Set Elimination Schemes.

Definition dict := list (string * pyval).

Fixpoint dict_get (k : string) (d : dict) : option pyval :=
  match d with
  | [] => None
  | (k', v) :: d' => if String.eqb k k' then Some v else dict_get k d'
  end.

(** [d[k] = v]: replaces in place, or appends a new key. *)
Fixpoint dict_set (k : string) (v : pyval) (d : dict) : dict :=
  match d with
  | [] => [(k, v)]
  | (k', v') :: d' =>
      if String.eqb k k' then (k, v) :: d' else (k', v') :: dict_set k v d'
  end.

Definition has_key (k : string) (d : dict) : bool :=
  match dict_get k d with Some _ => true | None => false end.

Definition get_int (k : string) (d : dict) : option Z :=
  match dict_get k d with Some (PInt z) => Some z | _ => None end.

Definition get_str (k : string) (d : dict) : option str :=
  match dict_get k d with Some (PStr s) => Some s | _ => None end.

Definition get_bool (k : string) (d : dict) : option bool :=
  match dict_get k d with Some (PBool b) => Some b | _ => None end.

Definition get_list (k : string) (d : dict) : option (list pyval) :=
  match dict_get k d with Some (PList l) => Some l | _ => None end.

(** ** The PDF library, as the scripts see it *)

Record Rect := { x0 : float; y0 : float; x1 : float; y1 : float }.

(** The dictionary [doc.extract_image] returns, by the keys the script
    reads; [None] is an absent key. *)
Record BaseImage := {
  bi_image : option bytes;
  bi_ext : option str;
  bi_width : option Z;
  bi_height : option Z;
  bi_colorspace : option Z;
  bi_bpc : option Z
}.

Inductive extract_outcome :=
| ExRaises
| ExFalsy
| ExDict (base_image : BaseImage).

(** An entry of [page.get_images(full=True)]; the script reads item 0. *)
Record ImgInfo := { img_xref : Z }.

Record Page := {
  get_text : str;
  get_images : list ImgInfo;
  get_image_rects : Z -> option (list Rect)
}.

Record Document := {
  doc_pages : list Page;
  extract_image : Z -> extract_outcome
}.

(** A raised exception: which of the two classes the handlers name it is
    an instance of, and [str(e)]. *)
Record Exception := {
  is_FileDataError : bool;
  is_EmptyFileError : bool;
  exc_str : str
}.

(** What the calls of the outer [try] block do on a document that has
    opened.  [Some e] is the exception the call raises; the page calls are
    asked by page number. *)
Record Faults := {
  len_raises : option Exception;
  load_raises : Z -> option Exception;
  text_raises : Z -> option Exception;
  images_raises : Z -> option Exception;
  close_raises : option Exception
}.

(** [fitz.open] raises; or the document opens and every later call on it
    returns ([Opened]); or it opens and [len(doc)], [doc[page_num]],
    [page.get_text()], [page.get_images(full=True)] and [doc.close()]
    raise where [faults] says ([OpenedFaulty]). *)
Inductive open_outcome :=
| Opened (doc : Document)
| OpenRaises (e : Exception)
| OpenedFaulty (doc : Document) (faults : Faults).

Record Env := {
  fitz_open : str -> open_outcome;
  path_exists : str -> bool;
  makedirs_ok : str -> bool;
  write_ok : str -> bool
}.

Inductive effect :=
| EOpen (path : str)
| ELoadPage (page_num : Z)
| EGetText (page_num : Z)
| EGetImages (page_num : Z)
| EExtractImage (xref : Z)
| EGetImageRects (page_num xref : Z)
| EWriteFile (path : str) (data : bytes)
| EClose
| EMakedirs (path : str)
| EPrint (v : pyval).

Definition is_library_call (e : effect) : bool :=
  match e with
  | EOpen _ | ELoadPage _ | EGetText _ | EGetImages _
  | EExtractImage _ | EGetImageRects _ _ | EClose => true
  | _ => false
  end.

(** What a run of a script leaves behind. *)
Record Process := {
  effects : list effect;
  exit_code : Z
}.

Definition prints (tr : list effect) : list pyval :=
  flat_map (fun e => match e with EPrint v => [v] | _ => [] end) tr.

Definition stdout (p : Process) : list pyval := prints (effects p).

(** A piece of the outer [try] block: it runs to its end, or a call in it
    raises after the effects [tr]. *)
Inductive attempt (A : Type) : Type :=
| Returned (a : A)
| Raised (tr : list effect) (e : Exception).

Arguments Returned {A} a.
Arguments Raised {A} tr e.

(** [enumerate(l, start)] *)
Fixpoint enumerate_from {A} (i : Z) (l : list A) : list (Z * A) :=
  match l with
  | [] => []
  | a :: r => (i, a) :: enumerate_from (i + 1) r
  end.

Definition method_tag : pyval := PStr (lit "pymupdf").

(** The three [except] clauses, tried in the order the source lists them. *)
Definition open_failure (generic : string) (e : Exception) : dict :=
  let msg :=
    if is_FileDataError e then lit "Invalid or corrupted PDF file: " ++ exc_str e
    else if is_EmptyFileError e then lit "PDF file is empty: " ++ exc_str e
    else lit generic ++ exc_str e in
  [("success", PBool false); ("error", PStr msg); ("method", method_tag)].

(** [sys.exit(0 if result["success"] else 1)] *)
Definition exit_status (result : dict) : Z :=
  match dict_get "success" result with
  | Some (PBool true) => 0
  | _ => 1
  end.

(** ** The text extractor: extract-pdf-pymupdf.py *)

Module TextExtractor.

Record loop_state := {
  text_parts : list str;
  pages_data : list dict;
  current_offset : Z;
  trace : list effect
}.

Definition MIN_TEXT_LENGTH : Z := 100.

Definition no_text_error : str :=
  lit "No text could be extracted from this PDF. It might be a scanned document or contain only images. Consider using OCR software.".

Definition usage_error : str :=
  lit "Usage: python3 extract-pdf-pymupdf.py <pdf_file_path>".

(** The body of the page loop. *)
Definition page_body (page_num : Z) (page : Page) (st : loop_state) : loop_state :=
  let tr := trace st ++ [ELoadPage page_num; EGetText page_num] in
  let text := get_text page in
  if truthy (strip text) then
    let start_offset := current_offset st in
    let end_offset := current_offset st + len text in
    {| text_parts := text_parts st ++ [text];
       pages_data := pages_data st ++
         [[("pageNumber", PInt (page_num + 1));
           ("text", PStr text);
           ("startOffset", PInt start_offset);
           ("endOffset", PInt end_offset)]];
       current_offset := end_offset + 2;
       trace := tr |}
  else
    {| text_parts := text_parts st;
       pages_data := pages_data st;
       current_offset := current_offset st;
       trace := tr |}.

Fixpoint page_loop (items : list (Z * Page)) (st : loop_state) : loop_state :=
  match items with
  | [] => st
  | (page_num, page) :: rest => page_loop rest (page_body page_num page st)
  end.

Definition initial_state : loop_state :=
  {| text_parts := []; pages_data := []; current_offset := 0;
     trace := [] |}.

Definition run_loop (doc : Document) : loop_state :=
  page_loop (enumerate_from 0 (doc_pages doc)) initial_state.

Definition separator : str := lit (String "010" (String "010" EmptyString)).

Definition full_text_of (doc : Document) : str :=
  join separator (text_parts (run_loop doc)).

(** The page loop on a document whose calls may raise: [doc[page_num]]
    and [page.get_text()] are inside the outer [try], so the first one
    that raises ends the loop. *)
Fixpoint page_loop_faulty (faults : Faults) (items : list (Z * Page))
    (st : loop_state) : attempt loop_state :=
  match items with
  | [] => Returned st
  | (page_num, page) :: rest =>
      match load_raises faults page_num with
      | Some e => Raised (trace st ++ [ELoadPage page_num]) e
      | None =>
          match text_raises faults page_num with
          | Some e =>
              Raised (trace st ++ [ELoadPage page_num; EGetText page_num]) e
          | None => page_loop_faulty faults rest (page_body page_num page st)
          end
      end
  end.

(** From [len(doc)] to [doc.close()]. *)
Definition run_faulty (faults : Faults) (doc : Document)
  : attempt loop_state :=
  match len_raises faults with
  | Some e => Raised [] e
  | None =>
      match page_loop_faulty faults (enumerate_from 0 (doc_pages doc))
              initial_state with
      | Raised tr e => Raised tr e
      | Returned st =>
          match close_raises faults with
          | Some e => Raised (trace st ++ [EClose]) e
          | None => Returned st
          end
      end
  end.

(** The check on the text and the two [return]s that follow it. *)
Definition finish (pdf_path : str) (page_count : Z) (st : loop_state)
  : list effect * dict :=
  let full_text := join separator (text_parts st) in
  let tr := [EOpen pdf_path] ++ trace st ++ [EClose] in
  if negb (truthy full_text) || (len (strip full_text) <? MIN_TEXT_LENGTH) then
    (tr, [("success", PBool false);
          ("error", PStr no_text_error);
          ("pageCount", PInt page_count);
          ("method", method_tag)])
  else
    (tr, [("success", PBool true);
          ("text", PStr full_text);
          ("pageCount", PInt page_count);
          ("pages", PList (map PDict (pages_data st)));
          ("method", method_tag)]).

(** [extract_text_from_pdf(pdf_path)].  The whole body is under the outer
    [try]: an exception of [fitz.open] or of any later call goes to the
    three handlers, tried in source order ([open_failure]). *)
Definition extract_text_from_pdf (env : Env) (pdf_path : str)
  : list effect * dict :=
  match fitz_open env pdf_path with
  | OpenRaises e => ([EOpen pdf_path], open_failure "Unable to parse PDF: " e)
  | OpenedFaulty doc faults =>
      match run_faulty faults doc with
      | Raised tr e =>
          ([EOpen pdf_path] ++ tr, open_failure "Unable to parse PDF: " e)
      | Returned st => finish pdf_path (len (doc_pages doc)) st
      end
  | Opened doc =>
      let page_count := len (doc_pages doc) in
      let st := run_loop doc in
      let full_text := join separator (text_parts st) in
      let tr := [EOpen pdf_path] ++ trace st ++ [EClose] in
      if negb (truthy full_text) || (len (strip full_text) <? MIN_TEXT_LENGTH) then
        (tr, [("success", PBool false);
              ("error", PStr no_text_error);
              ("pageCount", PInt page_count);
              ("method", method_tag)])
      else
        (tr, [("success", PBool true);
              ("text", PStr full_text);
              ("pageCount", PInt page_count);
              ("pages", PList (map PDict (pages_data st)));
              ("method", method_tag)])
  end.

(** [main()], on [sys.argv]. *)
Definition main (env : Env) (argv : list str) : Process :=
  match argv with
  | _ :: pdf_path :: _ =>
      let '(tr, result) := extract_text_from_pdf env pdf_path in
      {| effects := tr ++ [EPrint (PDict result)];
         exit_code := exit_status result |}
  | _ =>
      let result := [("success", PBool false);
                     ("error", PStr usage_error);
                     ("method", method_tag)] in
      {| effects := [EPrint (PDict result)]; exit_code := 1 |}
  end.

End TextExtractor.

(** ** Encodings used by the image extractor *)

Module Base64.

Definition alphabet : bytes :=
  list_byte_of_string
    "ABCDEFGHIJKLMNOPQRSTUVWXYZabcdefghijklmnopqrstuvwxyz0123456789+/".

Definition pad : byte := "="%byte.

Definition enc (i : N) : byte := nth (N.to_nat i) alphabet pad.

(** [base64.b64encode]: three bytes become four characters of the
    alphabet; a final group of one or two bytes is padded with [=]. *)
Fixpoint b64encode (data : bytes) : bytes :=
  match data with
  | [] => []
  | b0 :: r0 =>
      let a := Byte.to_N b0 in
      match r0 with
      | [] => [enc (a / 4); enc ((a mod 4) * 16); pad; pad]
      | b1 :: r1 =>
          let b := Byte.to_N b1 in
          match r1 with
          | [] =>
              [enc (a / 4); enc ((a mod 4) * 16 + b / 16);
               enc ((b mod 16) * 4); pad]
          | b2 :: r2 =>
              let c := Byte.to_N b2 in
              enc (a / 4) :: enc ((a mod 4) * 16 + b / 16)
                :: enc ((b mod 16) * 4 + c / 64) :: enc (c mod 64)
                :: b64encode r2
          end
      end
  end%N.





End Base64.

Module Utf8.

Definition is_cont (n : N) : bool := ((128 <=? n) && (n <=? 191))%N.

Definition cons_to (c : char) (r : option str) : option str :=
  match r with Some s => Some (c :: s) | None => None end.

(** [bytes.decode('utf-8')]; [None] is [UnicodeDecodeError]. *)
Fixpoint decode (data : bytes) : option str :=
  match data with
  | [] => Some []
  | b0 :: r0 =>
      let n0 := Byte.to_N b0 in
      if n0 <? 128 then cons_to n0 (decode r0)
      else
        match r0 with
        | [] => None
        | b1 :: r1 =>
            let n1 := Byte.to_N b1 in
            if (194 <=? n0) && (n0 <=? 223) then
              if is_cont n1
              then cons_to ((n0 - 192) * 64 + (n1 - 128)) (decode r1)
              else None
            else
              match r1 with
              | [] => None
              | b2 :: r2 =>
                  let n2 := Byte.to_N b2 in
                  if (224 <=? n0) && (n0 <=? 239) then
                    if is_cont n1 && is_cont n2
                       && (negb (n0 =? 224) || (160 <=? n1))
                       && (negb (n0 =? 237) || (n1 <=? 159))
                    then cons_to ((n0 - 224) * 4096 + (n1 - 128) * 64
                                  + (n2 - 128)) (decode r2)
                    else None
                  else
                    match r2 with
                    | [] => None
                    | b3 :: r3 =>
                        let n3 := Byte.to_N b3 in
                        if (240 <=? n0) && (n0 <=? 244)
                           && is_cont n1 && is_cont n2 && is_cont n3
                           && (negb (n0 =? 240) || (144 <=? n1))
                           && (negb (n0 =? 244) || (n1 <=? 143))
                        then cons_to ((n0 - 240) * 262144 + (n1 - 128) * 4096
                                      + (n2 - 128) * 64 + (n3 - 128))
                                     (decode r3)
                        else None
                    end
              end
        end
  end%N.

End Utf8.

(** [os.path.join(a, b)] on a POSIX system. *)
Definition ends_with_slash (a : str) : bool :=
  match rev a with
  | c :: _ => (c =? 47)%N
  | [] => false
  end.

Definition path_join (a b : str) : str :=
  if starts_with (lit "/") b then b
  else if negb (truthy a) || ends_with_slash a then a ++ b
  else a ++ lit "/" ++ b.

(** ** The image extractor: extract-pdf-images.py *)

Module ImageExtractor.

Definition DEFAULT_MAX_IMAGES : Z := 50.
Definition DEFAULT_MIN_SIZE : Z := 100.

Definition usage_error : str :=
  lit "Usage: python3 extract-pdf-images.py <pdf_file_path> [output_directory]".

Record loop_state := {
  images_data : list dict;
  total_extracted : Z;
  trace : list effect
}.

(** [if output_dir:] is false for [None] and for the empty string. *)
Definition output_dir_truthy (output_dir : option str) : bool :=
  match output_dir with
  | Some d => truthy d
  | None => false
  end.

Definition dir_value (output_dir : option str) : str :=
  match output_dir with
  | Some d => d
  | None => []
  end.

Definition get_default (o : option Z) (d : Z) : Z :=
  match o with Some z => z | None => d end.

(** [width < min_size or height < min_size] *)
Definition too_small (width height min_size : Z) : bool :=
  (width <? min_size) || (height <? min_size).

(** [bbox]: the first rectangle of [page.get_image_rects(xref)], if any. *)
Definition first_bbox (rects : list Rect) : option pyval :=
  match rects with
  | [] => None
  | r :: _ => Some (PList [PFloat (x0 r); PFloat (y0 r);
                           PFloat (x1 r); PFloat (y1 r)])
  end.

Definition make_filename (page_num img_index : Z) (image_ext : str) : str :=
  lit "page_" ++ str_of_int (page_num + 1) ++ lit "_img_"
    ++ str_of_int img_index ++ lit "." ++ image_ext.

(** The body of the inner [try]: the effects it performs and, when it
    reaches [images_data.append], the record it appends.  [None] is either
    a [continue] or an exception swallowed by [except Exception]. *)
Definition image_body (env : Env) (doc : Document) (output_dir : option str)
    (min_size : Z) (page_num : Z) (page : Page) (img_index : Z)
    (img_info : ImgInfo) : list effect * option dict :=
  let xref := img_xref img_info in
  match extract_image doc xref with
  | ExRaises => ([EExtractImage xref], None)
  | ExFalsy => ([EExtractImage xref], None)
  | ExDict base_image =>
      match bi_image base_image, bi_ext base_image with
      | Some image_bytes, Some image_ext =>
          let width := get_default (bi_width base_image) 0 in
          let height := get_default (bi_height base_image) 0 in
          let colorspace := get_default (bi_colorspace base_image) 0 in
          let bpc := get_default (bi_bpc base_image) 8 in
          if too_small width height min_size then ([EExtractImage xref], None)
          else
            match get_image_rects page xref with
            | None => ([EExtractImage xref; EGetImageRects page_num xref], None)
            | Some rects =>
                let tr := [EExtractImage xref; EGetImageRects page_num xref] in
                let bbox := first_bbox rects in
                let filename := make_filename page_num img_index image_ext in
                let image_info :=
                  [("pageNumber", PInt (page_num + 1));
                   ("imageIndex", PInt img_index);
                   ("filename", PStr filename);
                   ("width", PInt width);
                   ("height", PInt height);
                   ("colorspace", PInt colorspace);
                   ("bitsPerComponent", PInt bpc);
                   ("xref", PInt xref);
                   ("extension", PStr image_ext);
                   ("sizeBytes", PInt (len image_bytes))] in
                let image_info :=
                  match bbox with
                  | Some b => dict_set "bbox" b image_info
                  | None => image_info
                  end in
                if output_dir_truthy output_dir then
                  let filepath := path_join (dir_value output_dir) filename in
                  if write_ok env filepath then
                    (tr ++ [EWriteFile filepath image_bytes],
                     Some (dict_set "filepath" (PStr filepath) image_info))
                  else (tr, None)
                else
                  match Utf8.decode (Base64.b64encode image_bytes) with
                  | Some b64 =>
                      (tr, Some (dict_set "mimeType"
                                   (PStr (lit "image/" ++ image_ext))
                                   (dict_set "base64" (PStr b64) image_info)))
                  | None => (tr, None)
                  end
            end
      | _, _ => ([EExtractImage xref], None)
      end
  end.

(** One pass through the body, on the loop's variables. *)
Definition image_step (st : loop_state) (r : list effect * option dict)
  : loop_state :=
  match snd r with
  | Some image_info =>
      {| images_data := images_data st ++ [image_info];
         total_extracted := total_extracted st + 1;
         trace := trace st ++ fst r |}
  | None =>
      {| images_data := images_data st;
         total_extracted := total_extracted st;
         trace := trace st ++ fst r |}
  end.

(** [for img_index, img_info in enumerate(image_list)] *)
Fixpoint image_loop (env : Env) (doc : Document) (output_dir : option str)
    (max_images min_size : Z) (page_num : Z) (page : Page)
    (items : list (Z * ImgInfo)) (st : loop_state) : loop_state :=
  match items with
  | [] => st
  | (img_index, img_info) :: rest =>
      if total_extracted st >=? max_images then st
      else
        image_loop env doc output_dir max_images min_size page_num page rest
          (image_step st
             (image_body env doc output_dir min_size page_num page
                img_index img_info))
  end.

(** [for page_num in range(page_count)] *)
Fixpoint page_loop (env : Env) (doc : Document) (output_dir : option str)
    (max_images min_size : Z) (items : list (Z * Page)) (st : loop_state)
  : loop_state :=
  match items with
  | [] => st
  | (page_num, page) :: rest =>
      if total_extracted st >=? max_images then st
      else
        let st1 :=
          {| images_data := images_data st;
             total_extracted := total_extracted st;
             trace := trace st ++ [ELoadPage page_num; EGetImages page_num] |} in
        page_loop env doc output_dir max_images min_size rest
          (image_loop env doc output_dir max_images min_size page_num page
             (enumerate_from 0 (get_images page)) st1)
  end.

Definition initial_state : loop_state :=
  {| images_data := []; total_extracted := 0; trace := [] |}.

Definition run_loop (env : Env) (doc : Document) (output_dir : option str)
    (max_images min_size : Z) : loop_state :=
  page_loop env doc output_dir max_images min_size
    (enumerate_from 0 (doc_pages doc)) initial_state.

(** The page loop on a document whose calls may raise: [doc[page_num]]
    and [page.get_images(full=True)] are outside the inner [try], so the
    first one that raises ends both loops. *)
Fixpoint page_loop_faulty (env : Env) (doc : Document)
    (output_dir : option str) (max_images min_size : Z) (faults : Faults)
    (items : list (Z * Page)) (st : loop_state) : attempt loop_state :=
  match items with
  | [] => Returned st
  | (page_num, page) :: rest =>
      if total_extracted st >=? max_images then Returned st
      else
        match load_raises faults page_num with
        | Some e => Raised (trace st ++ [ELoadPage page_num]) e
        | None =>
            match images_raises faults page_num with
            | Some e =>
                Raised (trace st ++ [ELoadPage page_num; EGetImages page_num])
                  e
            | None =>
                let st1 :=
                  {| images_data := images_data st;
                     total_extracted := total_extracted st;
                     trace := trace st
                                ++ [ELoadPage page_num; EGetImages page_num] |}
                in
                page_loop_faulty env doc output_dir max_images min_size
                  faults rest
                  (image_loop env doc output_dir max_images min_size
                     page_num page (enumerate_from 0 (get_images page)) st1)
            end
        end
  end.

(** From [len(doc)] to [doc.close()]. *)
Definition run_faulty (env : Env) (doc : Document) (output_dir : option str)
    (max_images min_size : Z) (faults : Faults) : attempt loop_state :=
  match len_raises faults with
  | Some e => Raised [] e
  | None =>
      match page_loop_faulty env doc output_dir max_images min_size faults
              (enumerate_from 0 (doc_pages doc)) initial_state with
      | Raised tr e => Raised tr e
      | Returned st =>
          match close_raises faults with
          | Some e => Raised (trace st ++ [EClose]) e
          | None => Returned st
          end
      end
  end.

(** [extract_images_from_pdf(pdf_path, output_dir, max_images, min_size)].
    The whole body is under the outer [try]: an exception of [fitz.open]
    or of any later call outside the inner [try] goes to the three
    handlers, tried in source order ([open_failure]). *)
Definition extract_images_from_pdf (env : Env) (pdf_path : str)
    (output_dir : option str) (max_images min_size : Z)
  : list effect * dict :=
  match fitz_open env pdf_path with
  | OpenRaises e =>
      ([EOpen pdf_path], open_failure "Unable to extract images: " e)
  | OpenedFaulty doc faults =>
      match run_faulty env doc output_dir max_images min_size faults with
      | Raised tr e =>
          ([EOpen pdf_path] ++ tr,
           open_failure "Unable to extract images: " e)
      | Returned st =>
          ([EOpen pdf_path] ++ trace st ++ [EClose],
           [("success", PBool true);
            ("images", PList (map PDict (images_data st)));
            ("totalImages", PInt (total_extracted st));
            ("pageCount", PInt (len (doc_pages doc)));
            ("method", method_tag)])
      end
  | Opened doc =>
      let page_count := len (doc_pages doc) in
      let st := run_loop env doc output_dir max_images min_size in
      ([EOpen pdf_path] ++ trace st ++ [EClose],
       [("success", PBool true);
        ("images", PList (map PDict (images_data st)));
        ("totalImages", PInt (total_extracted st));
        ("pageCount", PInt page_count);
        ("method", method_tag)])
  end.

(** [sys.argv[2] if len(sys.argv) > 2 else None] *)
Definition output_dir_arg (argv : list str) : option str :=
  match argv with
  | _ :: _ :: d :: _ => Some d
  | _ => None
  end.

(** The rest of [main()] once the output directory is in place. *)
Definition run_extraction (env : Env) (pdf_path : str)
    (output_dir : option str) (before : list effect) : Process :=
  let '(tr, result) :=
    extract_images_from_pdf env pdf_path output_dir
      DEFAULT_MAX_IMAGES DEFAULT_MIN_SIZE in
  {| effects := before ++ tr ++ [EPrint (PDict result)];
     exit_code := exit_status result |}.

(** [main()], on [sys.argv].  A failing [os.makedirs] is not caught: the
    interpreter ends with status 1 and nothing on standard output. *)
Definition main (env : Env) (argv : list str) : Process :=
  match argv with
  | _ :: pdf_path :: _ =>
      let output_dir := output_dir_arg argv in
      if output_dir_truthy output_dir
         && negb (path_exists env (dir_value output_dir)) then
        if makedirs_ok env (dir_value output_dir) then
          run_extraction env pdf_path output_dir
            [EMakedirs (dir_value output_dir)]
        else
          {| effects := [EMakedirs (dir_value output_dir)]; exit_code := 1 |}
      else run_extraction env pdf_path output_dir []
  | _ =>
      let result := [("success", PBool false);
                     ("error", PStr usage_error);
                     ("method", method_tag)] in
      {| effects := [EPrint (PDict result)]; exit_code := 1 |}
  end.

End ImageExtractor.

(** ** The images a run may return *)

(** The elements of [l] on which [f] gives a result, in order. *)
Fixpoint choose {A B} (f : A -> option B) (l : list A) : list B :=
  match l with
  | [] => []
  | a :: r =>
      match f a with
      | Some b => b :: choose f r
      | None => choose f r
      end
  end.

(** An entry of a page's image list, with its page and its index. *)
Definition candidate : Type := Z * Page * (Z * ImgInfo).

Definition page_candidates (p : Z * Page) : list candidate :=
  map (fun it => (fst p, snd p, it)) (enumerate_from 0 (get_images (snd p))).

(** All entries of the document, in the order the loops visit them. *)
Definition candidates (doc : Document) : list candidate :=
  flat_map page_candidates (enumerate_from 0 (doc_pages doc)).

(** The record the loop body appends for an entry, if it appends one. *)
Definition accept (env : Env) (doc : Document) (output_dir : option str)
    (min_size : Z) (c : candidate) : option dict :=
  snd (ImageExtractor.image_body env doc output_dir min_size
         (fst (fst c)) (snd (fst c)) (fst (snd c)) (snd (snd c))).

(** The qualifying images: the records of the entries the body accepts. *)
Definition qualifying (env : Env) (doc : Document) (output_dir : option str)
    (min_size : Z) : list dict :=
  choose (accept env doc output_dir min_size) (candidates doc).

(** ** Invariants and views used in the proofs *)

(** The layout the page loop maintains: the i-th record holds the i-th
    included text, starts at [off] and the next one starts two characters
    after its end. *)
Fixpoint laid_out (off : Z) (parts : list str) (recs : list dict) : Prop :=
  match parts, recs with
  | [], [] => True
  | p :: ps, r :: rs =>
      get_str "text" r = Some p /\
      get_int "startOffset" r = Some off /\
      get_int "endOffset" r = Some (off + len p) /\
      laid_out (off + len p + 2) ps rs
  | _, _ => False
  end.

(** The offset after a run of included pages. *)
Fixpoint offset_after (off : Z) (parts : list str) : Z :=
  match parts with
  | [] => off
  | p :: ps => offset_after (off + len p + 2) ps
  end.

Definition loop_inv (st : TextExtractor.loop_state) : Prop :=
  laid_out 0 (TextExtractor.text_parts st) (TextExtractor.pages_data st) /\
  TextExtractor.current_offset st
    = offset_after 0 (TextExtractor.text_parts st) /\
  Forall (fun p => truthy (strip p) = true) (TextExtractor.text_parts st).

(** How many more records the loops may still append. *)
Definition room (max_images : Z) (st : ImageExtractor.loop_state) : nat :=
  Z.to_nat (max_images - ImageExtractor.total_extracted st).

(** The count is the length of the list. *)
Definition counted (st : ImageExtractor.loop_state) : Prop :=
  ImageExtractor.total_extracted st = len (ImageExtractor.images_data st).

(** The fields every accepted record carries, whatever the mode. *)
Definition common_fields (c : candidate) (b : BaseImage) (data : bytes)
    (ext : str) (r : dict) : Prop :=
  get_int "pageNumber" r = Some (fst (fst c) + 1) /\
  get_int "imageIndex" r = Some (fst (snd c)) /\
  get_int "xref" r = Some (img_xref (snd (snd c))) /\
  get_int "width" r = Some (ImageExtractor.get_default (bi_width b) 0) /\
  get_int "height" r = Some (ImageExtractor.get_default (bi_height b) 0) /\
  get_str "extension" r = Some ext /\
  get_int "sizeBytes" r = Some (len data).

Definition inline_fields (data : bytes) (ext : str) (r : dict) : Prop :=
  get_str "base64" r = Some (map Byte.to_N (Base64.b64encode data)) /\
  get_str "mimeType" r = Some (lit "image/" ++ ext) /\
  has_key "filepath" r = false.

Definition file_fields (output_dir : option str) (c : candidate)
    (ext : str) (r : dict) : Prop :=
  get_str "filepath" r
    = Some (path_join (ImageExtractor.dir_value output_dir)
              (ImageExtractor.make_filename (fst (fst c)) (fst (snd c)) ext)) /\
  has_key "base64" r = false /\
  has_key "mimeType" r = false.

Definition rec_key (r : dict) : option Z * option Z :=
  (get_int "pageNumber" r, get_int "xref" r).

Definition cand_key (c : candidate) : option Z * option Z :=
  (Some (fst (fst c) + 1), Some (img_xref (snd (snd c)))).

(** The pages the text loop keeps: those with text left after [strip]. *)
Definition included (items : list (Z * Page)) : list (Z * Page) :=
  filter (fun it => truthy (strip (get_text (snd it)))) items.

(** The calls the text loop makes for a run of pages. *)
Definition page_reads (items : list (Z * Page)) : list effect :=
  flat_map (fun it => [ELoadPage (fst it); EGetText (fst it)]) items.

(** A list whose elements increase strictly under [key]. *)
Fixpoint increasing {A} (key : A -> Z) (l : list A) : Prop :=
  match l with
  | [] => True
  | a :: r => (forall b, In b r -> key a < key b) /\ increasing key r
  end.




(** The files a trace writes, in order. *)
Definition writes (tr : list effect) : list (str * bytes) :=
  flat_map (fun e => match e with EWriteFile p d => [(p, d)] | _ => [] end) tr.




(** The document [fitz.open] gave, whether or not its calls may raise. *)
Definition opens_as (o : open_outcome) (doc : Document) : Prop :=
  o = Opened doc \/ exists faults, o = OpenedFaulty doc faults.

(** The document opened and none of the text extractor's calls on it
    raises. *)
Definition text_calls_return (o : open_outcome) (doc : Document) : Prop :=
  o = Opened doc \/
  exists faults,
    o = OpenedFaulty doc faults /\
    len_raises faults = None /\ close_raises faults = None /\
    forall n, 0 <= n < len (doc_pages doc) ->
      load_raises faults n = None /\ text_raises faults n = None.


(** The calls on the page whose call raises: the page is loaded, and its
    content is asked for if loading it returned. *)
Definition last_calls (read : Z -> effect) (faults : Faults) (k : Z)
  : list effect :=
  match load_raises faults k with
  | Some _ => [ELoadPage k]
  | None => [ELoadPage k; read k]
  end.

(** ** Sample documents *)

Module Sample.

Definition script : str := lit "extract.py".
Definition pdf : str := lit "report.pdf".

Definition text_page (t : str) : Page :=
  {| get_text := t; get_images := []; get_image_rects := fun _ => Some [] |}.

(** Two pages of text around a page of white space. *)
Definition report : Document :=
  {| doc_pages := [text_page (repeat 97%N 60);
                   text_page (lit "   ");
                   text_page (repeat 98%N 70)];
     extract_image := fun _ => ExRaises |}.


Definition env_of (doc : Document) : Env :=
  {| fitz_open := fun _ => Opened doc;
     path_exists := fun _ => true;
     makedirs_ok := fun _ => true;
     write_ok := fun _ => true |}.

Definition picture (w h : Z) : BaseImage :=
  {| bi_image := Some [x89; x50; x4e; x47; x0d];
     bi_ext := Some (lit "png");
     bi_width := Some w;
     bi_height := Some h;
     bi_colorspace := Some 3;
     bi_bpc := Some 8 |}.

Definition placement : Rect :=
  {| x0 := 72%float; y0 := 100.5%float; x1 := 300%float; y1 := 420.25%float |}.

Definition image_page (xrefs : list Z) : Page :=
  {| get_text := [];
     get_images := map (fun x => {| img_xref := x |}) xrefs;
     get_image_rects := fun _ => Some [placement] |}.

(** A logo, object 12, placed on both pages. *)
Definition brochure : Document :=
  {| doc_pages := [image_page [12]; image_page [12]];
     extract_image := fun _ => ExDict (picture 200 200) |}.


(** Three pages of twenty photographs each. *)
Definition album : Document :=
  {| doc_pages := [image_page (map Z.of_nat (seq 101 20));
                   image_page (map Z.of_nat (seq 201 20));
                   image_page (map Z.of_nat (seq 301 20))];
     extract_image := fun _ => ExDict (picture 640 480) |}.

Definition out_dir : str := lit "out".

(** Object 1 cannot be extracted, object 2 comes back empty, object 3
    lacks its extension, object 4 is fine. *)
Definition damaged : Document :=
  {| doc_pages := [image_page [1; 2; 3; 4]];
     extract_image := fun x =>
       if x =? 1 then ExRaises
       else if x =? 2 then ExFalsy
       else if x =? 3 then
         ExDict {| bi_image := Some [x00]; bi_ext := None;
                   bi_width := Some 300; bi_height := Some 300;
                   bi_colorspace := None; bi_bpc := None |}
       else ExDict (picture 300 300) |}.

(** A picture for which the library reports no width, colour space or
    bit depth. *)
Definition unsized_picture : BaseImage :=
  {| bi_image := Some [x00]; bi_ext := Some (lit "png");
     bi_width := None; bi_height := Some 900;
     bi_colorspace := None; bi_bpc := None |}.

Definition unsized : Document :=
  {| doc_pages := [image_page [5]];
     extract_image := fun _ => ExDict unsized_picture |}.

(** An environment in which the output directory is missing and cannot
    be created. *)
Definition read_only_env (doc : Document) : Env :=
  {| fitz_open := fun _ => Opened doc;
     path_exists := fun _ => false;
     makedirs_ok := fun _ => false;
     write_ok := fun _ => false |}.

(** An environment in which the file is not a PDF. *)
Definition broken_env : Env :=
  {| fitz_open := fun _ =>
       OpenRaises {| is_FileDataError := true; is_EmptyFileError := true;
                     exc_str := lit "no objects found" |};
     path_exists := fun _ => true;
     makedirs_ok := fun _ => true;
     write_ok := fun _ => true |}.



(** A document whose second page cannot be read. *)
Definition torn_faults : Faults :=
  {| len_raises := None;
     load_raises := fun _ => None;
     text_raises := fun n =>
       if n =? 1
       then Some {| is_FileDataError := false; is_EmptyFileError := false;
                    exc_str := lit "bad xref" |}
       else None;
     images_raises := fun n =>
       if n =? 1
       then Some {| is_FileDataError := false; is_EmptyFileError := false;
                    exc_str := lit "bad xref" |}
       else None;
     close_raises := None |}.

Definition torn_env (doc : Document) : Env :=
  {| fitz_open := fun _ => OpenedFaulty doc torn_faults;
     path_exists := fun _ => true;
     makedirs_ok := fun _ => true;
     write_ok := fun _ => true |}.

End Sample.

(** * Properties *)

(** ** Lists, lengths and slices *)

Lemma len_nonneg {A} (s : list A) : 0 <= len s.
Proof. unfold len. lia. Qed.

Lemma len_app {A} (s t : list A) : len (s ++ t) = len s + len t.
Proof. unfold len. rewrite length_app. lia. Qed.

Lemma strip_nil : strip [] = [].
Proof. reflexivity. Qed.

Lemma truthy_strip_len (s : str) : truthy (strip s) = true -> 0 < len s.
Proof.
  destruct s as [|c s]; [rewrite strip_nil; discriminate|].
  intros _. unfold len. simpl. lia.
Qed.

(** A slice that picks the middle of three concatenated lists. *)
Lemma slice_middle {A} (pre mid post : list A) :
  slice (pre ++ mid ++ post) (len pre) (len pre + len mid) = mid.
Proof.
  unfold slice, slice_bound. rewrite !len_app.
  pose proof (len_nonneg pre). pose proof (len_nonneg mid).
  pose proof (len_nonneg post).
  destruct (Z.ltb_spec (len pre) 0); [lia|].
  destruct (Z.ltb_spec (len pre + len mid) 0); [lia|].
  replace (Z.min _ (Z.max 0 (len pre + len mid)) - Z.min _ (Z.max 0 (len pre)))
    with (len mid) by lia.
  replace (Z.min (len pre + (len mid + len post)) (Z.max 0 (len pre)))
    with (len pre) by lia.
  unfold len. rewrite !Nat2Z.id.
  rewrite skipn_app, skipn_all, Nat.sub_diag. simpl.
  rewrite firstn_app, firstn_all, Nat.sub_diag. simpl.
  apply app_nil_r.
Qed.

Lemma map_PDict_inj (a b : list dict) : map PDict a = map PDict b -> a = b.
Proof.
  revert b. induction a; destruct b; simpl; intros E; try discriminate; auto.
  injection E as E1 E2. subst. f_equal. auto.
Qed.

(** ** The text extractor *)

Section TextLayout.

Import TextExtractor.

Lemma laid_out_snoc off parts recs n text :
  laid_out off parts recs ->
  laid_out off (parts ++ [text])
    (recs ++ [[("pageNumber", PInt n); ("text", PStr text);
               ("startOffset", PInt (offset_after off parts));
               ("endOffset", PInt (offset_after off parts + len text))]]).
Proof.
  revert off recs. induction parts as [|p ps IH]; intros off [|r rs] H;
    simpl in H; try contradiction.
  - simpl. repeat split; reflexivity.
  - destruct H as (Ht & Hs & He & Hrest).
    simpl. repeat split; auto.
Qed.

Lemma offset_after_snoc off parts text :
  offset_after off (parts ++ [text]) = offset_after off parts + len text + 2.
Proof. revert off. induction parts; simpl; intros; auto. Qed.

Lemma page_body_inv n page st : loop_inv st -> loop_inv (page_body n page st).
Proof.
  intros (Hl & Ho & Hf). unfold page_body.
  destruct (truthy (strip (get_text page))) eqn:Ht; unfold loop_inv; simpl.
  - rewrite Ho. split; [|split].
    + now apply laid_out_snoc.
    + now rewrite offset_after_snoc.
    + apply Forall_app. split; [assumption | now constructor].
  - auto.
Qed.

Lemma page_loop_inv items st : loop_inv st -> loop_inv (page_loop items st).
Proof.
  revert st. induction items as [|[n page] rest IH]; simpl; intros st H; auto.
  apply IH. now apply page_body_inv.
Qed.

Lemma run_loop_inv doc : loop_inv (run_loop doc).
Proof.
  apply page_loop_inv. unfold loop_inv, initial_state. simpl. auto.
Qed.

(** What a layout gives for the records, one by one. *)
Lemma laid_out_nth off parts recs :
  laid_out off parts recs ->
  Forall (fun p => truthy (strip p) = true) parts ->
  forall i r, nth_error recs i = Some r ->
    exists t s e,
      nth_error parts i = Some t /\
      get_str "text" r = Some t /\
      get_int "startOffset" r = Some s /\
      get_int "endOffset" r = Some e /\
      e = s + len t /\ s < e /\ off <= s /\
      (i = 0%nat -> s = off) /\
      (forall r', nth_error recs (S i) = Some r' ->
         get_int "startOffset" r' = Some (e + 2)).
Proof.
  revert off recs. induction parts as [|p ps IH]; intros off [|r rs] H Hf;
    simpl in H; try contradiction.
  - intros [|i] r' Hn; discriminate.
  - destruct H as (Ht & Hs & He & Hrest).
    inversion Hf as [|? ? Hp Hps]; subst.
    pose proof (truthy_strip_len _ Hp) as Hlen.
    intros [|i] r0 Hn; simpl in Hn.
    + inversion Hn; subst r0. exists p, off, (off + len p).
      repeat split; auto; try lia.
      intros r' Hr'. simpl in Hr'.
      destruct ps as [|p' ps'], rs as [|r1 rs']; simpl in Hrest;
        try contradiction; try discriminate.
      inversion Hr'; subst r'. tauto.
    + destruct (IH _ _ Hrest Hps i r0 Hn)
        as (t & s & e & Hpt & H1 & H2 & H3 & H4 & H5 & H6 & H7 & H8).
      exists t, s, e. repeat split; auto; try lia.
Qed.

Lemma laid_out_start_ge off parts recs :
  laid_out off parts recs ->
  forall j rj sj, nth_error recs j = Some rj ->
    get_int "startOffset" rj = Some sj -> off <= sj.
Proof.
  revert off recs. induction parts as [|p ps IH]; intros off [|r rs] H;
    simpl in H; try contradiction.
  - intros [|j] rj sj Hj; discriminate.
  - destruct H as (_ & Hs & _ & Hrest).
    intros [|j] rj sj Hj Hsj; simpl in Hj.
    + inversion Hj; subst rj. rewrite Hs in Hsj. inversion Hsj. lia.
    + pose proof (IH _ _ Hrest j rj sj Hj Hsj). pose proof (len_nonneg p). lia.
Qed.

(** Records further down the list start after the end of earlier ones. *)
Lemma laid_out_order off parts recs :
  laid_out off parts recs ->
  forall i j ri rj ei sj, (i < j)%nat ->
    nth_error recs i = Some ri -> nth_error recs j = Some rj ->
    get_int "endOffset" ri = Some ei -> get_int "startOffset" rj = Some sj ->
    ei + 2 <= sj.
Proof.
  revert off recs. induction parts as [|p ps IH]; intros off [|r rs] H;
    simpl in H; try contradiction.
  - intros [|i] j ri rj ei sj _ Hi; discriminate.
  - destruct H as (Ht & Hs & He & Hrest).
    intros [|i] [|j] ri rj ei sj Hlt Hi Hj Hei Hsj; try lia; simpl in Hi, Hj.
    + inversion Hi; subst ri. rewrite He in Hei. inversion Hei; subst ei.
      pose proof (laid_out_start_ge _ _ _ Hrest j rj sj Hj Hsj). lia.
    + eapply (IH _ _ Hrest i j); eauto. lia.
Qed.

Lemma laid_out_texts off parts recs :
  laid_out off parts recs -> map (get_str "text") recs = map Some parts.
Proof.
  revert off recs. induction parts as [|p ps IH]; intros off [|r rs] H;
    simpl in H; try contradiction; auto.
  destruct H as (Ht & _ & _ & Hrest). simpl. rewrite Ht. f_equal. eauto.
Qed.

(** Every record's offsets cut its own text out of the joined text. *)
Lemma laid_out_slice sep : len sep = 2 ->
  forall parts off recs pre,
  laid_out off parts recs -> len pre = off ->
  forall r t s e, In r recs ->
    get_str "text" r = Some t -> get_int "startOffset" r = Some s ->
    get_int "endOffset" r = Some e ->
    slice (pre ++ join sep parts) s e = t.
Proof.
  intros Hsep. induction parts as [|p ps IH]; intros off [|r rs] pre H Hpre;
    simpl in H; try contradiction.
  destruct H as (Ht & Hs & He & Hrest).
  intros r0 t s e [Hin|Hin] Ht0 Hs0 He0.
  - subst r0. rewrite Ht in Ht0. rewrite Hs in Hs0. rewrite He in He0.
    inversion Ht0; inversion Hs0; inversion He0; subst.
    destruct ps as [|q qs].
    + change (join sep [t]) with t.
      rewrite <- (app_nil_r t) at 1. apply slice_middle.
    + change (join sep (t :: q :: qs)) with (t ++ sep ++ join sep (q :: qs)).
      apply slice_middle.
  - destruct ps as [|q qs].
    + destruct rs; simpl in Hrest; [destruct Hin | contradiction].
    + change (join sep (p :: q :: qs)) with (p ++ sep ++ join sep (q :: qs)).
      replace (pre ++ p ++ sep ++ join sep (q :: qs))
        with ((pre ++ p ++ sep) ++ join sep (q :: qs))
        by (now rewrite <- !app_assoc).
      eapply (IH _ _ _ Hrest); eauto.
      rewrite !len_app. lia.
Qed.

End TextLayout.

(** ** The text extractor's results *)

Section TextResults.

Import TextExtractor.

(** When no call raises, the loop on a faulty document is the loop. *)
Lemma text_loop_faulty_returned faults items st st' :
  page_loop_faulty faults items st = Returned st' ->
  st' = page_loop items st.
Proof.
  revert st. induction items as [|[n page] rest IH]; intros st; simpl.
  - intros E. now injection E.
  - destruct (load_raises faults n); [discriminate|].
    destruct (text_raises faults n); [discriminate|]. apply IH.
Qed.

Lemma text_run_faulty_returned faults doc st :
  run_faulty faults doc = Returned st -> st = run_loop doc.
Proof.
  unfold run_faulty, run_loop.
  destruct (len_raises faults); [discriminate|].
  destruct (page_loop_faulty faults _ initial_state) as [st'|tr e] eqn:E;
    [|discriminate].
  destruct (close_raises faults); [discriminate|].
  intros E'. injection E' as <-. now apply text_loop_faulty_returned in E.
Qed.

(** A run is caught by one of the handlers, or it reaches the check on
    the text with the state the loop leaves. *)
Lemma extract_text_cases env pdf_path :
  (exists tr e,
     extract_text_from_pdf env pdf_path
     = (tr, open_failure "Unable to parse PDF: " e)) \/
  (exists doc,
     opens_as (fitz_open env pdf_path) doc /\
     extract_text_from_pdf env pdf_path
     = finish pdf_path (len (doc_pages doc)) (run_loop doc)).
Proof.
  unfold extract_text_from_pdf.
  destruct (fitz_open env pdf_path) as [doc|e|doc faults].
  - right. exists doc. split; [now left | reflexivity].
  - left. eauto.
  - destruct (run_faulty faults doc) as [st|tr e] eqn:E.
    + right. exists doc. split; [right; eauto|].
      now rewrite (text_run_faulty_returned _ _ _ E).
    + left. eauto.
Qed.

Lemma open_failure_not_success generic e :
  get_bool "success" (open_failure generic e) = Some false.
Proof. reflexivity. Qed.

Lemma extract_text_success env pdf_path tr result :
  extract_text_from_pdf env pdf_path = (tr, result) ->
  get_bool "success" result = Some true ->
  exists doc,
    opens_as (fitz_open env pdf_path) doc /\
    result = [("success", PBool true);
              ("text", PStr (full_text_of doc));
              ("pageCount", PInt (len (doc_pages doc)));
              ("pages", PList (map PDict (pages_data (run_loop doc))));
              ("method", method_tag)].
Proof.
  intros H Hs.
  destruct (extract_text_cases env pdf_path)
    as [(tr' & e & E) | (doc & Ho & E)]; rewrite E in H.
  - inversion H; subst. rewrite open_failure_not_success in Hs. discriminate.
  - exists doc. split; [exact Ho|]. unfold finish in H.
    destruct (negb _ || _); inversion H; subst; [discriminate | reflexivity].
Qed.

(** C1. In a successful result of the text extractor every page record
    has [endOffset = startOffset + len(text)]; the first record starts at
    0; each later record starts 2 characters after the end of the record
    before it, so the ranges are non-empty, strictly increasing and
    disjoint; and a page whose text is empty or white space leaves the
    records, the parts and the running offset as they were. *)
Theorem text_page_offsets env pdf_path tr result :
  extract_text_from_pdf env pdf_path = (tr, result) ->
  get_bool "success" result = Some true ->
  exists recs,
    get_list "pages" result = Some (map PDict recs) /\
    (forall i r, nth_error recs i = Some r ->
       exists t s e,
         get_str "text" r = Some t /\
         get_int "startOffset" r = Some s /\
         get_int "endOffset" r = Some e /\
         e = s + len t /\ s < e /\
         (i = 0%nat -> s = 0) /\
         (forall r', nth_error recs (S i) = Some r' ->
            get_int "startOffset" r' = Some (e + 2))) /\
    (forall i j ri rj ei sj, (i < j)%nat ->
       nth_error recs i = Some ri -> nth_error recs j = Some rj ->
       get_int "endOffset" ri = Some ei ->
       get_int "startOffset" rj = Some sj ->
       ei + 2 <= sj) /\
    (forall page_num page st,
       truthy (strip (get_text page)) = false ->
       pages_data (page_body page_num page st) = pages_data st /\
       text_parts (page_body page_num page st) = text_parts st /\
       current_offset (page_body page_num page st) = current_offset st).
Proof.
  intros H Hs.
  destruct (extract_text_success _ _ _ _ H Hs) as (doc & _ & ->).
  destruct (run_loop_inv doc) as (Hl & _ & Hf).
  exists (pages_data (run_loop doc)). split; [reflexivity|].
  split; [|split].
  - intros i r Hn.
    destruct (laid_out_nth _ _ _ Hl Hf i r Hn)
      as (t & s & e & _ & H1 & H2 & H3 & H4 & H5 & _ & H7 & H8).
    exists t, s, e. repeat split; auto.
  - exact (laid_out_order _ _ _ Hl).
  - intros page_num page st Hb. unfold page_body. rewrite Hb. simpl. auto.
Qed.

(** The sample report: records at [0, 60) and [62, 132). *)
Lemma text_page_offsets_witness :
  exists recs,
    get_list "pages"
      (snd (extract_text_from_pdf (Sample.env_of Sample.report) Sample.pdf))
    = Some (map PDict recs) /\
    map (get_int "startOffset") recs = [Some 0; Some 62] /\
    map (get_int "endOffset") recs = [Some 60; Some 132].
Proof.
  destruct (text_page_offsets (Sample.env_of Sample.report) Sample.pdf _ _
              eq_refl eq_refl) as (recs & Hp & _).
  exists recs. split; [exact Hp|].
  assert (E : map PDict (pages_data (run_loop Sample.report)) = map PDict recs).
  { assert (Hs : forall a b : list pyval, Some a = Some b -> a = b)
      by (intros a b Hab; now inversion Hab).
    apply Hs. rewrite <- Hp. reflexivity. }
  apply map_PDict_inj in E. subst recs. split; reflexivity.
Defined.

(** C2. In a successful result the record texts, joined by the two
    characters of the separator, are the returned text, and every record's
    [startOffset:endOffset] slice of the returned text is the record's
    text. *)
Theorem text_pages_rebuild_text env pdf_path tr result :
  extract_text_from_pdf env pdf_path = (tr, result) ->
  get_bool "success" result = Some true ->
  exists recs texts text,
    get_list "pages" result = Some (map PDict recs) /\
    get_str "text" result = Some text /\
    map (get_str "text") recs = map Some texts /\
    join (lit (String "010" (String "010" EmptyString))) texts = text /\
    (forall r t s e, In r recs ->
       get_str "text" r = Some t ->
       get_int "startOffset" r = Some s ->
       get_int "endOffset" r = Some e ->
       slice text s e = t).
Proof.
  intros H Hs.
  destruct (extract_text_success _ _ _ _ H Hs) as (doc & _ & ->).
  destruct (run_loop_inv doc) as (Hl & _ & _).
  exists (pages_data (run_loop doc)), (text_parts (run_loop doc)),
    (full_text_of doc).
  repeat split; try reflexivity.
  - exact (laid_out_texts _ _ _ Hl).
  - intros r t s e Hin Ht Hstart Hend.
    exact (laid_out_slice separator eq_refl _ _ _ [] Hl eq_refl
             r t s e Hin Ht Hstart Hend).
Qed.

(** The sample report: 60 + 2 + 70 characters of text. *)
Lemma text_pages_rebuild_text_witness :
  exists recs texts text,
    get_list "pages"
      (snd (extract_text_from_pdf (Sample.env_of Sample.report) Sample.pdf))
    = Some (map PDict recs) /\
    map (get_str "text") recs = map Some texts /\
    join (lit (String "010" (String "010" EmptyString))) texts = text /\
    len text = 132.
Proof.
  destruct (text_pages_rebuild_text (Sample.env_of Sample.report) Sample.pdf
              _ _ eq_refl eq_refl)
    as (recs & texts & text & Hp & Ht & Hm & Hj & _).
  exists recs, texts, text. repeat split; auto.
  vm_compute in Ht. injection Ht as <-. reflexivity.
Defined.

Lemma prints_app a b : prints (a ++ b) = prints a ++ prints b.
Proof. apply flat_map_app. Qed.

Lemma text_loop_prints items st :
  prints (trace (page_loop items st)) = prints (trace st).
Proof.
  revert st. induction items as [|[n page] rest IH]; intros st; simpl; auto.
  rewrite IH. unfold page_body.
  destruct (truthy _); simpl; rewrite prints_app; simpl; apply app_nil_r.
Qed.





End TextResults.

(** ** Base64 and UTF-8 *)

Section Encodings.

Import Base64.

#[local] Ltac Zify.zify_post_hook ::= Z.to_euclidean_division_equations.

(** Induction on byte strings three bytes at a time, the way the encoder
    reads them. *)
Lemma list_ind3 {A} (P : list A -> Prop) :
  P [] -> (forall a, P [a]) -> (forall a b, P [a; b]) ->
  (forall a b c l, P l -> P (a :: b :: c :: l)) ->
  forall l, P l.
Proof.
  intros H0 H1 H2 H3. fix IH 1.
  intros [|a [|b [|c l]]];
    [exact H0 | apply H1 | apply H2 | apply H3, IH].
Qed.


Lemma enc_in i : In (enc i) (pad :: alphabet).
Proof.
  unfold enc. destruct (nth_in_or_default (N.to_nat i) alphabet pad) as [H|H].
  - right. exact H.
  - left. now rewrite H.
Qed.

Lemma enc_ascii i : (Byte.to_N (enc i) <? 128)%N = true.
Proof.
  assert (H : Forall (fun b => (Byte.to_N b <? 128)%N = true) (pad :: alphabet))
    by (vm_compute; repeat constructor).
  rewrite Forall_forall in H. apply H, enc_in.
Qed.



(** The encoder's output is ASCII, so decoding it as UTF-8 is the
    character-by-character reading. *)
Lemma utf8_decode_ascii data :
  Forall (fun b => (Byte.to_N b <? 128)%N = true) data ->
  Utf8.decode data = Some (map Byte.to_N data).
Proof.
  induction 1 as [|b l Hb _ IH]; [reflexivity|].
  simpl. rewrite Hb, IH. reflexivity.
Qed.

Lemma b64encode_ascii data :
  Forall (fun b => (Byte.to_N b <? 128)%N = true) (b64encode data).
Proof.
  induction data as [|a|a b|a b c l IH] using list_ind3.
  - constructor.
  - simpl. repeat constructor; apply enc_ascii.
  - simpl. repeat constructor; apply enc_ascii.
  - change (b64encode (a :: b :: c :: l)) with
      (enc (Byte.to_N a / 4)
       :: enc ((Byte.to_N a mod 4) * 16 + Byte.to_N b / 16)
       :: enc ((Byte.to_N b mod 16) * 4 + Byte.to_N c / 64)
       :: enc (Byte.to_N c mod 64) :: b64encode l)%N.
    repeat (constructor; [apply enc_ascii|]). exact IH.
Qed.

Lemma b64_text data :
  Utf8.decode (b64encode data) = Some (map Byte.to_N (b64encode data)).
Proof. apply utf8_decode_ascii, b64encode_ascii. Qed.






End Encodings.

(** ** The image extractor's loops *)

Lemma choose_app {A B} (f : A -> option B) l1 l2 :
  choose f (l1 ++ l2) = choose f l1 ++ choose f l2.
Proof.
  induction l1 as [|a l1 IH]; simpl; [reflexivity|].
  destruct (f a); simpl; now rewrite IH.
Qed.

Lemma choose_In {A B} (f : A -> option B) l b :
  In b (choose f l) -> exists a, In a l /\ f a = Some b.
Proof.
  induction l as [|a l IH]; simpl; [intros []|].
  destruct (f a) eqn:E.
  - intros [<-|H]; [exists a; auto|].
    destruct (IH H) as (a' & ? & ?). exists a'. auto.
  - intros H. destruct (IH H) as (a' & ? & ?). exists a'. auto.
Qed.

Lemma firstn_In {A} n (l : list A) x : In x (firstn n l) -> In x l.
Proof.
  revert l. induction n; intros [|a l]; simpl; try tauto.
  intros [H|H]; auto.
Qed.

Section ImageLoops.

Import ImageExtractor.

Variables (env : Env) (doc : Document) (output_dir : option str).
Variables (max_images min_size : Z).

Let body := image_body env doc output_dir min_size.
Let acc := accept env doc output_dir min_size.



Lemma image_loop_spec page_num page items st :
  counted st ->
  let st' := image_loop env doc output_dir max_images min_size
               page_num page items st in
  images_data st' =
    images_data st ++
    firstn (room max_images st)
      (choose acc (map (fun it => (page_num, page, it)) items)) /\
  counted st'.
Proof.
  revert st. induction items as [|[i info] rest IH]; intros st Hc; simpl.
  - rewrite firstn_nil, app_nil_r. auto.
  - destruct (Z.geb_spec (total_extracted st) max_images) as [Hge|Hlt].
    + unfold room. replace (Z.to_nat _) with 0%nat by lia.
      simpl. rewrite app_nil_r. auto.
    + unfold acc at 1, accept. simpl. fold body.
      destruct (body page_num page i info) as [tr [info'|]] eqn:Hb.
      * specialize (IH (image_step st (tr, Some info'))).
        unfold image_step in *. simpl in *.
        destruct IH as [IH1 IH2].
        { unfold counted in *. simpl. rewrite len_app, Hc.
          unfold len. simpl. lia. }
        split; [|exact IH2]. rewrite IH1. unfold room. simpl.
        replace (Z.to_nat (max_images - total_extracted st))
          with (S (Z.to_nat (max_images - (total_extracted st + 1)))) by lia.
        simpl. now rewrite <- app_assoc.
      * specialize (IH (image_step st (tr, None))).
        unfold image_step in *. simpl in *.
        destruct IH as [IH1 IH2]; [exact Hc|].
        split; [|exact IH2]. rewrite IH1. reflexivity.
Qed.

Lemma page_loop_spec items st :
  counted st ->
  let st' := page_loop env doc output_dir max_images min_size items st in
  images_data st' =
    images_data st ++
    firstn (room max_images st) (choose acc (flat_map page_candidates items)) /\
  counted st'.
Proof.
  revert st. induction items as [|[n page] rest IH]; intros st Hc; simpl.
  - rewrite firstn_nil, app_nil_r. auto.
  - destruct (Z.geb_spec (total_extracted st) max_images) as [Hge|Hlt].
    + unfold room. replace (Z.to_nat _) with 0%nat by lia.
      simpl. rewrite app_nil_r. auto.
    + set (st1 := {| images_data := images_data st;
                     total_extracted := total_extracted st;
                     trace := trace st ++ [ELoadPage n; EGetImages n] |}).
      assert (Hc1 : counted st1) by exact Hc.
      destruct (image_loop_spec n page (enumerate_from 0 (get_images page))
                  st1 Hc1) as [E1 Hc2].
      set (st2 := image_loop env doc output_dir max_images min_size n page
                    (enumerate_from 0 (get_images page)) st1) in *.
      destruct (IH st2 Hc2) as [E2 Hc3].
      split; [|exact Hc3]. rewrite E2, E1.
      unfold page_candidates at 2. simpl fst. simpl snd.
      set (A := choose acc
                  (map (fun it => (n, page, it))
                     (enumerate_from 0 (get_images page)))) in *.
      rewrite choose_app. fold A. rewrite firstn_app, <- app_assoc.
      simpl images_data. f_equal. f_equal.
      assert (Hroom : room max_images st1 = room max_images st) by reflexivity.
      rewrite Hroom in *.
      assert (Ht2 : total_extracted st2 =
                    total_extracted st + len (firstn (room max_images st) A)).
      { unfold counted in Hc2, Hc. rewrite Hc2, E1, len_app. simpl.
        rewrite Hc. reflexivity. }
      unfold room at 1. rewrite Ht2. unfold len. rewrite length_firstn.
      f_equal. unfold room. lia.
Qed.

Lemma run_loop_spec :
  let st := run_loop env doc output_dir max_images min_size in
  images_data st = firstn (Z.to_nat max_images) (choose acc (candidates doc)) /\
  counted st.
Proof.
  destruct (page_loop_spec (enumerate_from 0 (doc_pages doc)) initial_state
              eq_refl) as [E Hc].
  split; [|exact Hc]. unfold run_loop. rewrite E. simpl.
  unfold room. simpl. now rewrite Z.sub_0_r.
Qed.

End ImageLoops.

(** ** What an accepted record looks like *)

Section AcceptedRecords.

Import ImageExtractor.

Variables (env : Env) (doc : Document) (output_dir : option str).
Variable min_size : Z.

Lemma accept_inv c r :
  accept env doc output_dir min_size c = Some r ->
  exists b data ext,
    extract_image doc (img_xref (snd (snd c))) = ExDict b /\
    bi_image b = Some data /\ bi_ext b = Some ext /\
    too_small (get_default (bi_width b) 0) (get_default (bi_height b) 0)
      min_size = false /\
    common_fields c b data ext r /\
    (if output_dir_truthy output_dir
     then file_fields output_dir c ext r else inline_fields data ext r).
Proof.
  destruct c as [[page_num page] [img_index img_info]].
  unfold accept, image_body. simpl fst. simpl snd.
  destruct (extract_image doc (img_xref img_info)) as [| |b] eqn:Hx;
    try discriminate.
  destruct (bi_image b) as [data|] eqn:Hd; [|discriminate].
  destruct (bi_ext b) as [ext|] eqn:He; [|discriminate].
  destruct (too_small _ _ min_size) eqn:Hsmall; [discriminate|].
  destruct (get_image_rects page (img_xref img_info)) as [rects|];
    [|discriminate].
  intros H. exists b, data, ext.
  split; [reflexivity|]. split; [exact Hd|]. split; [exact He|].
  split; [exact Hsmall|].
  destruct (output_dir_truthy output_dir).
  - destruct (write_ok env _); [|discriminate].
    destruct rects as [|rect rects]; simpl in H; inversion H; subst r;
      split; repeat split; reflexivity.
  - rewrite b64_text in H.
    destruct rects as [|rect rects]; simpl in H; inversion H; subst r;
      split; repeat split; reflexivity.
Qed.


Lemma accept_small page_num page img_index img_info b :
  extract_image doc (img_xref img_info) = ExDict b ->
  too_small (get_default (bi_width b) 0) (get_default (bi_height b) 0)
    min_size = true ->
  snd (image_body env doc output_dir min_size page_num page
         img_index img_info) = None.
Proof.
  intros Hx Hs. unfold image_body. rewrite Hx.
  destruct (bi_image b), (bi_ext b); try reflexivity.
  now rewrite Hs.
Qed.

End AcceptedRecords.



(** ** Traces of the image extractor *)

Section ImageTraces.

Import ImageExtractor.

Variables (env : Env) (doc : Document) (output_dir : option str).
Variables (max_images min_size : Z).

Lemma image_body_prints page_num page img_index img_info :
  prints (fst (image_body env doc output_dir min_size page_num page
                 img_index img_info)) = [].
Proof.
  unfold image_body.
  destruct (extract_image doc _) as [| |b]; try reflexivity.
  destruct (bi_image b), (bi_ext b); try reflexivity.
  destruct (too_small _ _ _); try reflexivity.
  destruct (get_image_rects page _); try reflexivity.
  destruct (output_dir_truthy output_dir).
  - destruct (write_ok env _); reflexivity.
  - destruct (Utf8.decode _); reflexivity.
Qed.

Lemma image_loop_prints page_num page items st :
  prints (trace (image_loop env doc output_dir max_images min_size
                   page_num page items st)) = prints (trace st).
Proof.
  revert st. induction items as [|[i info] rest IH]; intros st; simpl; auto.
  destruct (total_extracted st >=? max_images); [reflexivity|].
  rewrite IH. unfold image_step.
  destruct (snd _); simpl; rewrite prints_app, image_body_prints;
    apply app_nil_r.
Qed.

Lemma page_loop_prints items st :
  prints (trace (page_loop env doc output_dir max_images min_size items st))
  = prints (trace st).
Proof.
  revert st. induction items as [|[n page] rest IH]; intros st; simpl; auto.
  destruct (total_extracted st >=? max_images); [reflexivity|].
  rewrite IH, image_loop_prints. simpl. rewrite prints_app. simpl.
  apply app_nil_r.
Qed.


(** When no call raises, the loop on a faulty document is the loop. *)
Lemma image_loop_faulty_returned faults items st st' :
  page_loop_faulty env doc output_dir max_images min_size faults items st
    = Returned st' ->
  st' = page_loop env doc output_dir max_images min_size items st.
Proof.
  revert st. induction items as [|[n page] rest IH]; intros st; simpl.
  - intros E. now injection E.
  - destruct (total_extracted st >=? max_images);
      [intros E; now injection E|].
    destruct (load_raises faults n); [discriminate|].
    destruct (images_raises faults n); [discriminate|]. apply IH.
Qed.

(** When a call raises, nothing has been printed. *)
Lemma image_loop_faulty_raised faults items st tr e :
  page_loop_faulty env doc output_dir max_images min_size faults items st
    = Raised tr e ->
  prints tr = prints (trace st).
Proof.
  revert st. induction items as [|[n page] rest IH]; intros st; simpl;
    [discriminate|].
  destruct (total_extracted st >=? max_images); [discriminate|].
  destruct (load_raises faults n).
  { intros E. injection E as <- _. rewrite prints_app. simpl.
    apply app_nil_r. }
  destruct (images_raises faults n).
  { intros E. injection E as <- _. rewrite prints_app. simpl.
    apply app_nil_r. }
  intros E. rewrite (IH _ E), image_loop_prints. simpl.
  rewrite prints_app. simpl. apply app_nil_r.
Qed.

Lemma image_run_faulty_returned faults st :
  run_faulty env doc output_dir max_images min_size faults = Returned st ->
  st = run_loop env doc output_dir max_images min_size.
Proof.
  unfold run_faulty, run_loop.
  destruct (len_raises faults); [discriminate|].
  destruct (page_loop_faulty _ _ _ _ _ _ _ initial_state) as [st'|tr e] eqn:E;
    [|discriminate].
  destruct (close_raises faults); [discriminate|].
  intros E'. injection E' as <-. now apply image_loop_faulty_returned in E.
Qed.

Lemma image_run_faulty_raised faults tr e :
  run_faulty env doc output_dir max_images min_size faults = Raised tr e ->
  prints tr = [].
Proof.
  unfold run_faulty.
  destruct (len_raises faults); [intros E; now injection E as <- _|].
  destruct (page_loop_faulty _ _ _ _ _ _ _ initial_state) as [st'|tr' e'] eqn:E.
  - destruct (close_raises faults); [|discriminate].
    intros E'. injection E' as <- _. rewrite prints_app.
    apply image_loop_faulty_returned in E. subst st'.
    rewrite page_loop_prints. reflexivity.
  - intros E'. injection E' as <- _.
    now rewrite (image_loop_faulty_raised _ _ _ _ _ E).
Qed.

End ImageTraces.

(** The dictionary of a success, for the document that opened. *)
Lemma extract_images_cases env pdf_path output_dir max_images min_size :
  (exists tr e,
     ImageExtractor.extract_images_from_pdf env pdf_path output_dir
       max_images min_size
     = (tr, open_failure "Unable to extract images: " e)) \/
  (exists doc,
     opens_as (fitz_open env pdf_path) doc /\
     snd (ImageExtractor.extract_images_from_pdf env pdf_path output_dir
            max_images min_size)
     = [("success", PBool true);
        ("images", PList (map PDict
           (ImageExtractor.images_data
              (ImageExtractor.run_loop env doc output_dir max_images
                 min_size))));
        ("totalImages",
         PInt (ImageExtractor.total_extracted
                 (ImageExtractor.run_loop env doc output_dir max_images
                    min_size)));
        ("pageCount", PInt (len (doc_pages doc)));
        ("method", method_tag)]).
Proof.
  unfold ImageExtractor.extract_images_from_pdf.
  destruct (fitz_open env pdf_path) as [doc|e|doc faults].
  - right. exists doc. split; [now left | reflexivity].
  - left. eauto.
  - destruct (ImageExtractor.run_faulty env doc output_dir max_images
                min_size faults) as [st|tr e] eqn:E.
    + right. exists doc. split; [right; eauto|].
      now rewrite (image_run_faulty_returned _ _ _ _ _ _ _ E).
    + left. eauto.
Qed.

Lemma extract_images_success env pdf_path output_dir max_images min_size
    tr result :
  ImageExtractor.extract_images_from_pdf env pdf_path output_dir
    max_images min_size = (tr, result) ->
  get_bool "success" result = Some true ->
  exists doc,
    opens_as (fitz_open env pdf_path) doc /\
    get_list "images" result
      = Some (map PDict (firstn (Z.to_nat max_images)
                           (qualifying env doc output_dir min_size))) /\
    get_int "totalImages" result
      = Some (len (firstn (Z.to_nat max_images)
                     (qualifying env doc output_dir min_size))).
Proof.
  intros H Hs.
  destruct (extract_images_cases env pdf_path output_dir max_images min_size)
    as [(tr' & e & E) | (doc & Ho & E)]; rewrite H in E.
  - inversion E; subst. rewrite open_failure_not_success in Hs. discriminate.
  - exists doc. split; [exact Ho|]. simpl in E. subst result.
    destruct (run_loop_spec env doc output_dir max_images min_size)
      as [E' Hc].
    unfold get_list, get_int. simpl. unfold counted in Hc.
    rewrite Hc, E'. auto.
Qed.

Lemma extract_images_prints env output_dir max_images min_size pdf_path :
  prints (fst (ImageExtractor.extract_images_from_pdf env pdf_path output_dir
                 max_images min_size)) = [].
Proof.
  unfold ImageExtractor.extract_images_from_pdf.
  destruct (fitz_open env pdf_path) as [doc|e|doc faults]; [|reflexivity|].
  - cbn [fst]. rewrite !prints_app. unfold ImageExtractor.run_loop.
    rewrite page_loop_prints. reflexivity.
  - destruct (ImageExtractor.run_faulty env doc output_dir max_images
                min_size faults) as [st|tr e] eqn:E; cbn [fst].
    + rewrite (image_run_faulty_returned _ _ _ _ _ _ _ E), !prints_app.
      unfold ImageExtractor.run_loop. rewrite page_loop_prints. reflexivity.
    + rewrite prints_app, (image_run_faulty_raised _ _ _ _ _ _ _ _ E).
      reflexivity.
Qed.

(** ** Distinct records *)

Lemma choose_NoDup {A B K} (f : A -> option B) (g : A -> K) (k : B -> K) l :
  (forall a b, f a = Some b -> k b = g a) ->
  NoDup (map g l) -> NoDup (map k (choose f l)).
Proof.
  intros Hk. induction l as [|a l IH]; simpl; intros Hn; [constructor|].
  inversion Hn as [|? ? Hnot Hrest]; subst.
  destruct (f a) as [b|] eqn:E; [|auto].
  simpl. constructor; [|auto].
  intros Hin. apply Hnot. apply in_map_iff in Hin.
  destruct Hin as (b' & Hkb & Hb').
  apply choose_In in Hb'. destruct Hb' as (a' & Ha' & Hf).
  apply in_map_iff. exists a'. split; [|exact Ha'].
  rewrite <- (Hk _ _ Hf), <- (Hk _ _ E). exact Hkb.
Qed.

Lemma firstn_NoDup {A} n (l : list A) : NoDup l -> NoDup (firstn n l).
Proof.
  revert l. induction n; intros [|a l] H; simpl; try constructor.
  - inversion H; subst. intros Hin. apply firstn_In in Hin. contradiction.
  - inversion H; subst. auto.
Qed.

Lemma enumerate_from_snd {A} i (l : list A) :
  map snd (enumerate_from i l) = l.
Proof. revert i. induction l; simpl; intros; [reflexivity | now rewrite IHl]. Qed.

Lemma enumerate_from_fst {A} i (l : list A) p :
  In p (enumerate_from i l) -> i <= fst p.
Proof.
  revert i. induction l as [|a l IH]; simpl; intros i; [intros []|].
  intros [<-|H]; simpl; [lia|]. apply IH in H. lia.
Qed.

Lemma page_candidates_keys p :
  NoDup (map img_xref (get_images (snd p))) ->
  NoDup (map cand_key (page_candidates p)).
Proof.
  intros H. unfold page_candidates. rewrite map_map.
  rewrite <- (enumerate_from_snd 0 (get_images (snd p))) in H.
  rewrite map_map in H.
  revert H. generalize (enumerate_from 0 (get_images (snd p))).
  induction l as [|it l IH]; simpl; intros H; [constructor|].
  inversion H as [|? ? Hnot Hrest]; subst. constructor; [|auto].
  intros Hin. apply Hnot. apply in_map_iff in Hin.
  destruct Hin as (it' & Hk & Hin). apply in_map_iff. exists it'.
  split; [|exact Hin]. unfold cand_key in Hk. simpl in Hk. congruence.
Qed.

Lemma candidates_keys_from pages i k :
  In k (map cand_key (flat_map page_candidates (enumerate_from i pages))) ->
  exists n, i <= n /\ fst k = Some (n + 1).
Proof.
  intros H. apply in_map_iff in H. destruct H as (c & <- & Hc).
  apply in_flat_map in Hc. destruct Hc as (p & Hp & Hc).
  apply enumerate_from_fst in Hp. unfold page_candidates in Hc.
  apply in_map_iff in Hc. destruct Hc as (it & <- & _).
  exists (fst p). simpl. auto.
Qed.

Lemma candidates_keys_NoDup pages i :
  (forall page, In page pages -> NoDup (map img_xref (get_images page))) ->
  NoDup (map cand_key (flat_map page_candidates (enumerate_from i pages))).
Proof.
  revert i. induction pages as [|page pages IH]; intros i H; simpl;
    [constructor|].
  rewrite map_app. apply NoDup_app.
  - apply page_candidates_keys. simpl. apply H. now left.
  - apply IH. intros q Hq. apply H. now right.
  - intros k Hk Hk'. apply candidates_keys_from in Hk'.
    destruct Hk' as (n & Hn & Hfst).
    unfold page_candidates in Hk. rewrite map_map in Hk.
    apply in_map_iff in Hk. destruct Hk as (it & <- & _).
    simpl in Hfst. injection Hfst as Hfst. lia.
Qed.

Lemma accepted_keys_NoDup env doc output_dir min_size n :
  (forall page, In page (doc_pages doc) ->
     NoDup (map img_xref (get_images page))) ->
  NoDup (map rec_key (firstn n (qualifying env doc output_dir min_size))).
Proof.
  intros H. rewrite <- firstn_map. apply firstn_NoDup.
  apply (choose_NoDup _ cand_key).
  - intros c r Hr. apply accept_inv in Hr.
    destruct Hr as (b & data & ext & _ & _ & _ & _ & Hc & _).
    destruct Hc as (Hp & _ & Hx & _). unfold rec_key, cand_key.
    now rewrite Hp, Hx.
  - now apply candidates_keys_NoDup.
Qed.

(** ** The image extractor's results *)

Section ImageResults.

Import ImageExtractor.


(** C3 fails as stated.  The sample brochure shows one object on two
    pages: the successful result lists it twice, with the same [xref]. *)
Lemma brochure_repeats_xref :
  exists images ri rj,
    get_bool "success"
      (snd (extract_images_from_pdf (Sample.env_of Sample.brochure)
              Sample.pdf None 50 100)) = Some true /\
    get_list "images"
      (snd (extract_images_from_pdf (Sample.env_of Sample.brochure)
              Sample.pdf None 50 100)) = Some (map PDict images) /\
    nth_error images 0 = Some ri /\ nth_error images 1 = Some rj /\
    get_int "xref" ri = Some 12 /\ get_int "xref" rj = Some 12.
Proof.
  destruct (nth_error
              (images_data (run_loop (Sample.env_of Sample.brochure)
                              Sample.brochure None 50 100)) 0)
    as [ri|] eqn:Hi; [|vm_compute in Hi; discriminate].
  destruct (nth_error
              (images_data (run_loop (Sample.env_of Sample.brochure)
                              Sample.brochure None 50 100)) 1)
    as [rj|] eqn:Hj; [|vm_compute in Hj; discriminate].
  exists (images_data (run_loop (Sample.env_of Sample.brochure)
                         Sample.brochure None 50 100)), ri, rj.
  split; [reflexivity|]. split; [reflexivity|].
  split; [exact Hi|]. split; [exact Hj|].
  vm_compute in Hi, Hj. injection Hi as <-. injection Hj as <-.
  split; reflexivity.
Qed.

(** C3, as the code has it.  The extractor removes no duplicates itself.
    In a successful result, when the library lists every [xref] at most
    once in each page's image list, two different records of the same
    page never share an [xref]; records of different pages may. *)
Theorem image_xref_distinct_per_page
    env pdf_path output_dir max_images min_size tr result :
  extract_images_from_pdf env pdf_path output_dir max_images min_size
    = (tr, result) ->
  get_bool "success" result = Some true ->
  (forall doc page, opens_as (fitz_open env pdf_path) doc ->
     In page (doc_pages doc) -> NoDup (map img_xref (get_images page))) ->
  exists images : list dict,
    get_list "images" result = Some (map PDict images) /\
    forall i j ri rj,
      nth_error images i = Some ri -> nth_error images j = Some rj ->
      i <> j ->
      get_int "pageNumber" ri = get_int "pageNumber" rj ->
      get_int "xref" ri <> get_int "xref" rj.
Proof.
  intros H Hs Hlib.
  destruct (extract_images_success _ _ _ _ _ _ _ H Hs) as (doc & Ho & Hl & _).
  exists (firstn (Z.to_nat max_images)
            (qualifying env doc output_dir min_size)).
  split; [exact Hl|].
  intros i j ri rj Hi Hj Hij Hp Hx. apply Hij.
  pose proof (accepted_keys_NoDup env doc output_dir min_size
                (Z.to_nat max_images)
                (fun page Hin => Hlib doc page Ho Hin)) as Hn.
  rewrite NoDup_nth_error in Hn. apply Hn.
  - rewrite length_map. apply nth_error_Some. rewrite Hi. discriminate.
  - rewrite !nth_error_map, Hi, Hj. simpl. unfold rec_key. now rewrite Hp, Hx.
Qed.

(** The sample album lists every object once per page. *)
Lemma image_xref_distinct_per_page_witness :
  exists images : list dict,
    get_list "images"
      (snd (extract_images_from_pdf (Sample.env_of Sample.album)
              Sample.pdf None 50 100)) = Some (map PDict images) /\
    forall i j ri rj,
      nth_error images i = Some ri -> nth_error images j = Some rj ->
      i <> j ->
      get_int "pageNumber" ri = get_int "pageNumber" rj ->
      get_int "xref" ri <> get_int "xref" rj.
Proof.
  apply (image_xref_distinct_per_page (Sample.env_of Sample.album)
           Sample.pdf None 50 100 _ _ eq_refl eq_refl).
  intros doc page [Ho|(faults & Ho)] Hin; [|discriminate].
  injection Ho as <-.
  simpl in Hin. destruct Hin as [<-|[<-|[<-|[]]]];
    vm_compute; repeat constructor; simpl; intuition discriminate.
Defined.







(** C10. In a successful result [totalImages] is the length of [images]:
    a pass of the loop body either appends one record and adds one to the
    count, or leaves both alone. *)
Theorem image_total_is_length
    env pdf_path output_dir max_images min_size tr result :
  extract_images_from_pdf env pdf_path output_dir max_images min_size
    = (tr, result) ->
  get_bool "success" result = Some true ->
  (exists images : list dict,
     get_list "images" result = Some (map PDict images) /\
     get_int "totalImages" result = Some (len images)) /\
  (forall st r,
     (exists image_info,
        images_data (image_step st r) = images_data st ++ [image_info] /\
        total_extracted (image_step st r) = total_extracted st + 1) \/
     (images_data (image_step st r) = images_data st /\
      total_extracted (image_step st r) = total_extracted st)).
Proof.
  intros H Hs.
  destruct (extract_images_success _ _ _ _ _ _ _ H Hs) as (doc & _ & Hl & Ht).
  split.
  - eexists. split; [exact Hl | exact Ht].
  - intros st [tr' [info|]]; unfold image_step; simpl.
    + left. exists info. auto.
    + right. auto.
Qed.

(** The sample album: the count printed is the length of the list. *)
Lemma image_total_is_length_witness :
  exists images : list dict,
    get_list "images"
      (snd (extract_images_from_pdf (Sample.env_of Sample.album) Sample.pdf
              None 50 100)) = Some (map PDict images) /\
    get_int "totalImages"
      (snd (extract_images_from_pdf (Sample.env_of Sample.album) Sample.pdf
              None 50 100)) = Some (len images).
Proof.
  exact (proj1 (image_total_is_length (Sample.env_of Sample.album) Sample.pdf
                  None 50 100 _ _ eq_refl eq_refl)).
Defined.

End ImageResults.

(** ** Usage errors *)

(** C8. Run with no argument, each script prints one object, with
    [success] false, its usage line and the method tag, and exits with
    status 1; printing is the only effect, so no call to the PDF library
    comes before it, or at all. *)
Theorem usage_error_without_arguments env argv :
  (length argv < 2)%nat ->
  TextExtractor.main env argv =
    {| effects :=
         [EPrint (PDict
            [("success", PBool false);
             ("error",
              PStr (lit "Usage: python3 extract-pdf-pymupdf.py <pdf_file_path>"));
             ("method", PStr (lit "pymupdf"))])];
       exit_code := 1 |} /\
  ImageExtractor.main env argv =
    {| effects :=
         [EPrint (PDict
            [("success", PBool false);
             ("error",
              PStr (lit "Usage: python3 extract-pdf-images.py <pdf_file_path> [output_directory]"));
             ("method", PStr (lit "pymupdf"))])];
       exit_code := 1 |} /\
  existsb is_library_call (effects (TextExtractor.main env argv)) = false /\
  existsb is_library_call (effects (ImageExtractor.main env argv)) = false.
Proof.
  intros H. destruct argv as [|script [|pdf_path rest]]; simpl in H;
    try lia; repeat split; reflexivity.
Qed.

(** Both scripts, run with the script name alone. *)
Lemma usage_error_without_arguments_witness :
  (length [Sample.script] < 2)%nat /\
  exit_code (TextExtractor.main (Sample.env_of Sample.report) [Sample.script])
    = 1 /\
  exit_code (ImageExtractor.main (Sample.env_of Sample.report) [Sample.script])
    = 1.
Proof.
  assert (H : (length [Sample.script] < 2)%nat) by (simpl; lia).
  destruct (usage_error_without_arguments (Sample.env_of Sample.report)
              [Sample.script] H) as (Ht & Hi & _).
  split; [exact H|]. rewrite Ht, Hi. split; reflexivity.
Defined.

(** * Further properties of the two scripts *)

(** ** Enumerations *)

Lemma enumerate_from_In {A} (l : list A) i n a :
  In (n, a) (enumerate_from i l) <->
  i <= n /\ nth_error l (Z.to_nat (n - i)) = Some a.
Proof.
  revert i. induction l as [|x l IH]; intros i; simpl.
  - split; [intros [] | intros [_ H]].
    destruct (Z.to_nat (n - i)); discriminate.
  - rewrite IH. split.
    + intros [E|[Hle Hn]].
      * inversion E; subst. rewrite Z.sub_diag. simpl. split; [lia | reflexivity].
      * split; [lia|].
        replace (Z.to_nat (n - i)) with (S (Z.to_nat (n - (i + 1)))) by lia.
        exact Hn.
    + intros [Hle Hn]. destruct (Z.eq_dec n i) as [->|Hne].
      * left. rewrite Z.sub_diag in Hn. simpl in Hn. now inversion Hn.
      * right. split; [lia|].
        replace (Z.to_nat (n - i)) with (S (Z.to_nat (n - (i + 1)))) in Hn
          by lia.
        exact Hn.
Qed.

Lemma enumerate_from_increasing {A} (l : list A) i :
  increasing fst (enumerate_from i l).
Proof.
  revert i. induction l as [|x l IH]; intros i; simpl; [exact I|].
  split; [|apply IH].
  intros b Hb. apply enumerate_from_fst in Hb. lia.
Qed.

Lemma increasing_filter {A} (key : A -> Z) f (l : list A) :
  increasing key l -> increasing key (filter f l).
Proof.
  induction l as [|a l IH]; simpl; [auto|].
  intros [Ha Hl]. destruct (f a); simpl; [|auto].
  split; [|auto]. intros b Hb. apply filter_In in Hb. apply Ha, Hb.
Qed.

Lemma increasing_nth {A} (key : A -> Z) (l : list A) :
  increasing key l ->
  forall i j a b, (i < j)%nat ->
    nth_error l i = Some a -> nth_error l j = Some b -> key a < key b.
Proof.
  induction l as [|x l IH]; simpl; intros H i j a b Hlt Hi Hj.
  - destruct i; discriminate.
  - destruct H as [Hx Hl]. destruct i as [|i], j as [|j]; try lia;
      simpl in Hi, Hj.
    + inversion Hi; subst. apply Hx. eapply nth_error_In; eauto.
    + eapply (IH Hl i j); eauto. lia.
Qed.

(** ** The text extractor: which pages, in which order *)

Section TextPages.

Import TextExtractor.

(** A record's page number and text. *)
Let page_of_record (r : dict) := (get_int "pageNumber" r, get_str "text" r).

Let page_of_item (it : Z * Page) := (Some (fst it + 1), Some (get_text (snd it))).

Lemma text_loop_records items st :
  map page_of_record (pages_data (page_loop items st)) =
  map page_of_record (pages_data st) ++ map page_of_item (included items).
Proof.
  revert st. induction items as [|[n page] rest IH]; intros st; simpl.
  - now rewrite app_nil_r.
  - rewrite IH. unfold page_body.
    destruct (truthy (strip (get_text page))) eqn:Hb; simpl.
    + rewrite map_app, <- app_assoc. reflexivity.
    + reflexivity.
Qed.

Lemma text_loop_trace items st :
  trace (page_loop items st) = trace st ++ page_reads items.
Proof.
  revert st. induction items as [|[n page] rest IH]; intros st; simpl.
  - now rewrite app_nil_r.
  - rewrite IH. unfold page_body.
    destruct (truthy _); simpl; now rewrite <- app_assoc.
Qed.

Lemma run_loop_records doc :
  map page_of_record (pages_data (run_loop doc)) =
  map page_of_item (included (enumerate_from 0 (doc_pages doc))).
Proof. unfold run_loop. now rewrite text_loop_records. Qed.

(** X1. In a successful result of the text extractor, [pageCount] is
    the number of pages of the document; every record carries a page
    number between 1 and [pageCount] and the text of that very page,
    which is not blank; every page that is not blank has its record; and
    page numbers increase strictly along the list. *)
Theorem text_records_are_pages env pdf_path tr result :
  extract_text_from_pdf env pdf_path = (tr, result) ->
  get_bool "success" result = Some true ->
  exists doc (recs : list dict),
    opens_as (fitz_open env pdf_path) doc /\
    get_list "pages" result = Some (map PDict recs) /\
    get_int "pageCount" result = Some (len (doc_pages doc)) /\
    (forall r, In r recs ->
       exists n page,
         get_int "pageNumber" r = Some n /\
         1 <= n <= len (doc_pages doc) /\
         nth_error (doc_pages doc) (Z.to_nat (n - 1)) = Some page /\
         get_str "text" r = Some (get_text page) /\
         truthy (strip (get_text page)) = true) /\
    (forall k page,
       nth_error (doc_pages doc) k = Some page ->
       truthy (strip (get_text page)) = true ->
       exists r, In r recs /\
                 get_int "pageNumber" r = Some (Z.of_nat k + 1)) /\
    (forall i j ri rj ni nj, (i < j)%nat ->
       nth_error recs i = Some ri -> nth_error recs j = Some rj ->
       get_int "pageNumber" ri = Some ni ->
       get_int "pageNumber" rj = Some nj -> ni < nj).
Proof.
  intros H Hs.
  destruct (extract_text_success _ _ _ _ H Hs) as (doc & Ho & ->).
  exists doc, (pages_data (run_loop doc)).
  pose proof (run_loop_records doc) as Hrec.
  split; [exact Ho|]. split; [reflexivity|]. split; [reflexivity|].
  split; [|split].
  - intros r Hin.
    apply (in_map page_of_record) in Hin. rewrite Hrec in Hin.
    apply in_map_iff in Hin. destruct Hin as ([n page] & E & Hin).
    apply filter_In in Hin. destruct Hin as [Hin Hb].
    apply enumerate_from_In in Hin. destruct Hin as [Hle Hn].
    unfold page_of_item, page_of_record in E. simpl in *.
    injection E as E1 E2. exists (n + 1), page.
    rewrite Z.sub_0_r in Hn.
    assert (Hlt : (Z.to_nat n < length (doc_pages doc))%nat)
      by (apply nth_error_Some; rewrite Hn; discriminate).
    repeat split; auto; unfold len; try lia.
    now replace (n + 1 - 1) with n by lia.
  - intros k page Hk Hb.
    assert (Hin : In (page_of_item (Z.of_nat k, page))
                    (map page_of_record (pages_data (run_loop doc)))).
    { rewrite Hrec. apply in_map. apply filter_In. split; [|exact Hb].
      apply enumerate_from_In. split; [lia|].
      now rewrite Z.sub_0_r, Nat2Z.id. }
    apply in_map_iff in Hin. destruct Hin as (r & E & Hin).
    exists r. split; [exact Hin|].
    unfold page_of_item, page_of_record in E. simpl in E. now injection E.
  - intros i j ri rj ni nj Hlt Hi Hj Hni Hnj.
    assert (Hat : forall k r n, nth_error (pages_data (run_loop doc)) k = Some r ->
              get_int "pageNumber" r = Some n ->
              exists it, nth_error (included (enumerate_from 0 (doc_pages doc))) k
                         = Some it /\ fst it + 1 = n).
    { intros k r n Hk Hn.
      pose proof (f_equal (fun l => nth_error l k) Hrec) as E. simpl in E.
      rewrite !nth_error_map, Hk in E. simpl in E.
      destruct (nth_error (included _) k) as [it|]; [|discriminate].
      exists it. split; [reflexivity|].
      unfold page_of_item, page_of_record in E. simpl in E.
      rewrite Hn in E. now injection E. }
    destruct (Hat _ _ _ Hi Hni) as (iti & Hiti & <-).
    destruct (Hat _ _ _ Hj Hnj) as (itj & Hitj & <-).
    pose proof (increasing_nth fst _
                  (increasing_filter fst _ _
                     (enumerate_from_increasing (doc_pages doc) 0))
                  i j iti itj Hlt Hiti Hitj).
    lia.
Qed.

(** The sample report: pages 1 and 3 are kept, page 2 is blank. *)
Lemma text_records_are_pages_witness :
  exists recs : list dict,
    get_list "pages"
      (snd (extract_text_from_pdf (Sample.env_of Sample.report) Sample.pdf))
    = Some (map PDict recs) /\
    map (get_int "pageNumber") recs = [Some 1; Some 3].
Proof.
  destruct (text_records_are_pages (Sample.env_of Sample.report) Sample.pdf
              _ _ eq_refl eq_refl) as (doc & recs & _ & Hp & _).
  exists recs. split; [exact Hp|].
  assert (E : map PDict (pages_data (run_loop Sample.report)) = map PDict recs).
  { assert (Hs : forall a b : list pyval, Some a = Some b -> a = b)
      by (intros a b Hab; now inversion Hab).
    apply Hs. rewrite <- Hp. reflexivity. }
  apply map_PDict_inj in E. subst recs. reflexivity.
Defined.

End TextPages.

(** ** The text extractor: offsets, calls and failures *)

Section TextMore.

Import TextExtractor.

Lemma offset_after_ge off parts : off <= offset_after off parts.
Proof.
  revert off. induction parts as [|p ps IH]; intros off; simpl; [lia|].
  pose proof (IH (off + len p + 2)). pose proof (len_nonneg p). lia.
Qed.

Lemma offset_after_join sep off parts :
  len sep = 2 -> parts <> [] ->
  offset_after off parts = off + len (join sep parts) + 2.
Proof.
  intros Hsep. revert off. induction parts as [|p ps IH]; intros off Hne;
    [contradiction|].
  destruct ps as [|q qs].
  - reflexivity.
  - change (offset_after off (p :: q :: qs))
      with (offset_after (off + len p + 2) (q :: qs)).
    change (join sep (p :: q :: qs)) with (p ++ sep ++ join sep (q :: qs)).
    rewrite IH by discriminate. rewrite !len_app. lia.
Qed.

Lemma laid_out_end_le off parts recs :
  laid_out off parts recs ->
  forall r e, In r recs -> get_int "endOffset" r = Some e ->
    e + 2 <= offset_after off parts.
Proof.
  revert off recs. induction parts as [|p ps IH]; intros off [|r rs] H;
    simpl in H; try contradiction.
  destruct H as (_ & _ & He & Hrest). intros r0 e [<-|Hin] Hr0.
  - rewrite He in Hr0. injection Hr0 as <-. simpl.
    apply offset_after_ge.
  - simpl. eapply IH; eauto.
Qed.

Lemma laid_out_last off parts recs front r :
  laid_out off parts recs -> recs = front ++ [r] ->
  get_int "endOffset" r = Some (offset_after off parts - 2).
Proof.
  revert off recs front. induction parts as [|p ps IH];
    intros off [|r0 rs] front H E; simpl in H; try contradiction.
  - destruct front; discriminate.
  - destruct H as (_ & _ & He & Hrest).
    destruct front as [|f front]; simpl in E; injection E as -> ->.
    + destruct ps; simpl in Hrest; [|contradiction].
      rewrite He. simpl. f_equal. lia.
    + simpl. eapply IH; eauto.
Qed.

Lemma laid_out_length off parts recs :
  laid_out off parts recs -> length recs = length parts.
Proof.
  revert off recs. induction parts as [|p ps IH]; intros off [|r rs] H;
    simpl in H; try contradiction; simpl; auto.
  destruct H as (_ & _ & _ & Hrest). f_equal. eauto.
Qed.

(** What the test at the end of the loop leaves for a success. *)
Lemma extract_text_success_text env pdf_path tr result :
  extract_text_from_pdf env pdf_path = (tr, result) ->
  get_bool "success" result = Some true ->
  exists doc,
    result = [("success", PBool true);
              ("text", PStr (full_text_of doc));
              ("pageCount", PInt (len (doc_pages doc)));
              ("pages", PList (map PDict (pages_data (run_loop doc))));
              ("method", method_tag)] /\
    truthy (full_text_of doc) = true /\
    100 <= len (strip (full_text_of doc)).
Proof.
  intros H Hs.
  destruct (extract_text_cases env pdf_path)
    as [(tr' & e & E) | (doc & Ho & E)]; rewrite E in H.
  - inversion H; subst. rewrite open_failure_not_success in Hs. discriminate.
  - exists doc. unfold finish in H. fold (full_text_of doc) in H.
    destruct (truthy (full_text_of doc)) eqn:Ht; simpl in H.
    + destruct (Z.ltb_spec (len (strip (full_text_of doc))) MIN_TEXT_LENGTH)
        as [Hlt|Hge].
      * inversion H; subst. discriminate.
      * inversion H; subst. auto.
    + inversion H; subst. discriminate.
Qed.

(** X2. In a successful result of the text extractor the text has at
    least 100 characters after [strip]; the list of records is not empty;
    every record's offsets lie inside the text,
    [0 <= startOffset < endOffset <= len(text)]; and the last record ends
    exactly at the end of the text. *)
Theorem text_offsets_inside_text env pdf_path tr result :
  extract_text_from_pdf env pdf_path = (tr, result) ->
  get_bool "success" result = Some true ->
  exists (recs front : list dict) (final : dict) (text : str),
    get_list "pages" result = Some (map PDict recs) /\
    get_str "text" result = Some text /\
    100 <= len (strip text) /\
    recs = front ++ [final] /\
    get_int "endOffset" final = Some (len text) /\
    (forall r s e, In r recs ->
       get_int "startOffset" r = Some s -> get_int "endOffset" r = Some e ->
       0 <= s /\ s < e /\ e <= len text).
Proof.
  intros H Hs.
  destruct (extract_text_success_text _ _ _ _ H Hs) as (doc & Hres & Ht & Hlen).
  subst result.
  destruct (run_loop_inv doc) as (Hl & _ & Hf).
  assert (Hparts : text_parts (run_loop doc) <> []).
  { intros E. unfold full_text_of in Ht. rewrite E in Ht. discriminate. }
  pose proof (offset_after_join separator 0 _ eq_refl Hparts) as Hoff.
  fold (full_text_of doc) in Hoff.
  assert (Hrecs : pages_data (run_loop doc) <> []).
  { intros E. apply Hparts. apply length_zero_iff_nil.
    rewrite <- (laid_out_length _ _ _ Hl), E. reflexivity. }
  destruct (exists_last Hrecs) as (front & final & Elast).
  exists (pages_data (run_loop doc)), front, final, (full_text_of doc).
  split; [reflexivity|]. split; [reflexivity|]. split; [exact Hlen|].
  split; [exact Elast|]. split.
  - rewrite (laid_out_last _ _ _ _ _ Hl Elast). f_equal. lia.
  - intros r s e Hin Hstart Hend.
    destruct (In_nth_error _ _ Hin) as (i & Hi).
    destruct (laid_out_nth _ _ _ Hl Hf i r Hi)
      as (t & s' & e' & _ & _ & H2 & H3 & _ & H5 & H6 & _).
    rewrite Hstart in H2. rewrite Hend in H3.
    injection H2 as <-. injection H3 as <-.
    pose proof (laid_out_end_le _ _ _ Hl r e Hin Hend). lia.
Qed.

(** The sample report: 132 characters, the last record ends at 132. *)
Lemma text_offsets_inside_text_witness :
  exists (recs front : list dict) (final : dict),
    get_list "pages"
      (snd (extract_text_from_pdf (Sample.env_of Sample.report) Sample.pdf))
    = Some (map PDict recs) /\
    recs = front ++ [final] /\
    get_int "endOffset" final = Some 132.
Proof.
  destruct (text_offsets_inside_text (Sample.env_of Sample.report) Sample.pdf
              _ _ eq_refl eq_refl)
    as (recs & front & final & text & Hp & Ht & _ & E & Hend & _).
  exists recs, front, final. split; [exact Hp|]. split; [exact E|].
  rewrite Hend. vm_compute in Ht. injection Ht as <-. reflexivity.
Defined.



(** When a call raises, nothing has been printed. *)
Lemma text_loop_faulty_raised faults items st tr e :
  page_loop_faulty faults items st = Raised tr e ->
  prints tr = prints (trace st).
Proof.
  revert st. induction items as [|[n page] rest IH]; intros st; simpl;
    [discriminate|].
  destruct (load_raises faults n).
  { intros E. injection E as <- _. rewrite prints_app. simpl.
    apply app_nil_r. }
  destruct (text_raises faults n).
  { intros E. injection E as <- _. rewrite prints_app. simpl.
    apply app_nil_r. }
  intros E. rewrite (IH _ E). unfold page_body.
  destruct (truthy _); simpl; rewrite prints_app; simpl; apply app_nil_r.
Qed.

Lemma extract_text_prints env pdf_path :
  prints (fst (extract_text_from_pdf env pdf_path)) = [].
Proof.
  unfold extract_text_from_pdf.
  destruct (fitz_open env pdf_path) as [doc|e|doc faults]; [|reflexivity|].
  - assert (E : prints (trace (run_loop doc)) = [])
      by (unfold run_loop; now rewrite text_loop_prints).
    destruct (negb _ || _); cbn [fst]; rewrite !prints_app, E; reflexivity.
  - destruct (run_faulty faults doc) as [st|tr e] eqn:E.
    + rewrite (text_run_faulty_returned _ _ _ E). unfold finish.
      assert (E' : prints (trace (run_loop doc)) = [])
        by (unfold run_loop; now rewrite text_loop_prints).
      destruct (negb _ || _); cbn [fst]; rewrite !prints_app, E'; reflexivity.
    + cbn [fst]. rewrite prints_app. simpl. unfold run_faulty in E.
      destruct (len_raises faults); [now injection E as <- _|].
      destruct (page_loop_faulty faults _ initial_state) as [st'|tr' e'] eqn:El.
      * destruct (close_raises faults); [|discriminate].
        injection E as <- _. rewrite prints_app.
        apply text_loop_faulty_returned in El. subst st'.
        rewrite text_loop_prints. reflexivity.
      * injection E as <- _.
        now rewrite (text_loop_faulty_raised _ _ _ _ _ El).
Qed.

(** X5. Every run of the text extractor's [main] prints exactly one
    object, and the exit status is 0 exactly when that object has
    [success] true. *)
Theorem text_main_prints_once env argv :
  exists result,
    stdout (main env argv) = [PDict result] /\
    (exit_code (main env argv) = 0 <-> get_bool "success" result = Some true).
Proof.
  destruct argv as [|script [|pdf_path rest]];
    try (eexists; split; [reflexivity|]; simpl; split; discriminate).
  unfold main, stdout.
  pose proof (extract_text_prints env pdf_path) as Hp.
  destruct (extract_text_from_pdf env pdf_path) as [tr result].
  exists result. cbn [fst] in Hp. cbn [effects exit_code]. split.
  - rewrite prints_app, Hp. reflexivity.
  - unfold exit_status, get_bool.
    destruct (dict_get "success" result) as [[| [] | | | | |]|];
      split; intros E; try discriminate; reflexivity.
Qed.

End TextMore.

(** ** Failures to open, in both scripts *)

(** X6. When [fitz.open] raises, both scripts return a failure with
    [success] false, the method tag and an [error] made of a prefix and
    [str(e)]; the prefix is the first handler's that matches, so an
    exception that is a [FileDataError] is reported as invalid or
    corrupted even when it is also an [EmptyFileError].  Nothing but the
    call to open is made, and both [main]s exit with status 1. *)
Theorem open_failure_is_reported env pdf_path e output_dir max_images min_size :
  fitz_open env pdf_path = OpenRaises e ->
  exists text_prefix image_prefix,
    TextExtractor.extract_text_from_pdf env pdf_path =
      ([EOpen pdf_path],
       [("success", PBool false);
        ("error", PStr (lit text_prefix ++ exc_str e));
        ("method", PStr (lit "pymupdf"))]) /\
    ImageExtractor.extract_images_from_pdf env pdf_path output_dir
      max_images min_size =
      ([EOpen pdf_path],
       [("success", PBool false);
        ("error", PStr (lit image_prefix ++ exc_str e));
        ("method", PStr (lit "pymupdf"))]) /\
    (is_FileDataError e = true ->
     text_prefix = "Invalid or corrupted PDF file: " /\
     image_prefix = "Invalid or corrupted PDF file: ") /\
    (is_FileDataError e = false -> is_EmptyFileError e = true ->
     text_prefix = "PDF file is empty: " /\
     image_prefix = "PDF file is empty: ") /\
    (is_FileDataError e = false -> is_EmptyFileError e = false ->
     text_prefix = "Unable to parse PDF: " /\
     image_prefix = "Unable to extract images: ") /\
    (forall script rest,
       exit_code (TextExtractor.main env (script :: pdf_path :: rest)) = 1 /\
       exit_code (ImageExtractor.main env (script :: pdf_path :: rest)) = 1).
Proof.
  intros Ho.
  assert (Hmain : forall script rest,
    exit_code (TextExtractor.main env (script :: pdf_path :: rest)) = 1 /\
    exit_code (ImageExtractor.main env (script :: pdf_path :: rest)) = 1).
  { intros script rest. split.
    - unfold TextExtractor.main, TextExtractor.extract_text_from_pdf.
      rewrite Ho. reflexivity.
    - unfold ImageExtractor.main, ImageExtractor.run_extraction,
        ImageExtractor.extract_images_from_pdf.
      rewrite Ho.
      destruct (_ && _); [destruct (makedirs_ok env _)|]; reflexivity. }
  unfold TextExtractor.extract_text_from_pdf,
    ImageExtractor.extract_images_from_pdf, open_failure.
  rewrite Ho.
  destruct (is_FileDataError e) eqn:Hf; [|destruct (is_EmptyFileError e) eqn:He].
  - exists "Invalid or corrupted PDF file: ", "Invalid or corrupted PDF file: ".
    do 2 (split; [reflexivity|]).
    do 3 (split; [intros; try discriminate; auto|]). exact Hmain.
  - exists "PDF file is empty: ", "PDF file is empty: ".
    do 2 (split; [reflexivity|]).
    do 3 (split; [intros; try discriminate; auto|]). exact Hmain.
  - exists "Unable to parse PDF: ", "Unable to extract images: ".
    do 2 (split; [reflexivity|]).
    do 3 (split; [intros; try discriminate; auto|]). exact Hmain.
Qed.

(** A file that is not a PDF: both scripts give up with status 1. *)
Lemma open_failure_is_reported_witness :
  get_str "error"
    (snd (TextExtractor.extract_text_from_pdf Sample.broken_env Sample.pdf))
  = Some (lit "Invalid or corrupted PDF file: no objects found") /\
  exit_code (ImageExtractor.main Sample.broken_env
               [Sample.script; Sample.pdf]) = 1.
Proof.
  destruct (open_failure_is_reported Sample.broken_env Sample.pdf _ None 50 100
              eq_refl)
    as (tp & ip & Ht & _ & Hfd & _ & _ & Hmain).
  destruct (Hfd eq_refl) as [-> _]. split.
  - rewrite Ht. reflexivity.
  - exact (proj2 (Hmain Sample.script [])).
Defined.

(** ** The image extractor: which entries, in which order *)









Section ImageEntries.

Import ImageExtractor.





End ImageEntries.

(** ** Printing numbers and building file names *)








(** ** The image extractor: the fields of a record *)


Section ImageBodyFacts.

Import ImageExtractor.

Variables (env : Env) (doc : Document) (output_dir : option str).
Variable min_size : Z.

Lemma accept_inv_full c r :
  accept env doc output_dir min_size c = Some r ->
  exists b data ext rects,
    extract_image doc (img_xref (snd (snd c))) = ExDict b /\
    bi_image b = Some data /\ bi_ext b = Some ext /\
    get_image_rects (snd (fst c)) (img_xref (snd (snd c))) = Some rects /\
    get_str "filename" r
      = Some (make_filename (fst (fst c)) (fst (snd c)) ext) /\
    dict_get "bbox" r = first_bbox rects /\
    get_int "colorspace" r = Some (get_default (bi_colorspace b) 0) /\
    get_int "bitsPerComponent" r = Some (get_default (bi_bpc b) 8) /\
    writes (fst (image_body env doc output_dir min_size
                   (fst (fst c)) (snd (fst c)) (fst (snd c)) (snd (snd c))))
    = if output_dir_truthy output_dir
      then [(path_join (dir_value output_dir)
               (make_filename (fst (fst c)) (fst (snd c)) ext), data)]
      else [].
Proof.
  destruct c as [[page_num page] [img_index img_info]].
  unfold accept, image_body. simpl fst. simpl snd.
  destruct (extract_image doc (img_xref img_info)) as [| |b] eqn:Hx;
    try discriminate.
  destruct (bi_image b) as [data|] eqn:Hd; [|discriminate].
  destruct (bi_ext b) as [ext|] eqn:He; [|discriminate].
  destruct (too_small _ _ min_size) eqn:Hsmall; [discriminate|].
  destruct (get_image_rects page (img_xref img_info)) as [rects|] eqn:Hr;
    [|discriminate].
  intros H. exists b, data, ext, rects.
  do 4 (split; [reflexivity || assumption|]).
  destruct (output_dir_truthy output_dir).
  - destruct (write_ok env _); [|discriminate].
    destruct rects as [|rect rects]; simpl in H; inversion H; subst r;
      repeat split; reflexivity.
  - rewrite b64_text in H |- *.
    destruct rects as [|rect rects]; simpl in H; inversion H; subst r;
      repeat split; reflexivity.
Qed.

(** An entry that gives no record writes no file. *)
Lemma rejected_writes_nothing c :
  accept env doc output_dir min_size c = None ->
  writes (fst (image_body env doc output_dir min_size
                 (fst (fst c)) (snd (fst c)) (fst (snd c)) (snd (snd c))))
  = [].
Proof.
  destruct c as [[page_num page] [img_index img_info]].
  unfold accept, image_body. simpl fst. simpl snd.
  destruct (extract_image doc _) as [| |b]; try reflexivity.
  destruct (bi_image b), (bi_ext b); try reflexivity.
  destruct (too_small _ _ _); try reflexivity.
  destruct (get_image_rects page _); try reflexivity.
  destruct (output_dir_truthy output_dir).
  - destruct (write_ok env _); [discriminate | reflexivity].
  - destruct (Utf8.decode _); [discriminate | reflexivity].
Qed.

End ImageBodyFacts.

(** ** The image extractor: file names and files *)





Section ImageFiles.

Import ImageExtractor.

Variables (env : Env) (doc : Document) (output_dir : option str).
Variables (max_images min_size : Z).







End ImageFiles.



Section ImageFileResults.

Import ImageExtractor.





End ImageFileResults.

(** ** The image extractor: bounding boxes, missing keys, failures *)

Section ImageEdges.

Import ImageExtractor.



(** X12. Keys the library leaves out.  An image whose dictionary has no
    [width] or no [height] counts as 0 wide or high, so under any positive
    minimum size it is dropped; a record that is appended reports
    [colorspace] 0 and [bitsPerComponent] 8 when the library gave
    none. *)
Theorem image_missing_keys_use_defaults
    env doc output_dir min_size page_num page img_index img_info b :
  extract_image doc (img_xref img_info) = ExDict b ->
  let body := image_body env doc output_dir min_size page_num page
                img_index img_info in
  (bi_width b = None \/ bi_height b = None -> 0 < min_size ->
   snd body = None) /\
  (forall r, snd body = Some r ->
     get_int "width" r = Some (match bi_width b with Some w => w | None => 0 end) /\
     get_int "height" r = Some (match bi_height b with Some h => h | None => 0 end) /\
     get_int "colorspace" r
       = Some (match bi_colorspace b with Some c => c | None => 0 end) /\
     get_int "bitsPerComponent" r
       = Some (match bi_bpc b with Some n => n | None => 8 end)).
Proof.
  intros Hx body. split.
  - intros Hmiss Hpos. subst body.
    apply (accept_small env doc output_dir min_size page_num page img_index
             img_info b Hx).
    unfold too_small. apply orb_true_iff.
    destruct Hmiss as [-> | ->]; simpl; [left | right]; apply Z.ltb_lt; lia.
  - intros r Hr. subst body.
    set (c := (page_num, page, (img_index, img_info)) : candidate).
    assert (Hacc : accept env doc output_dir min_size c = Some r) by exact Hr.
    destruct (accept_inv _ _ _ _ _ _ Hacc)
      as (b1 & data & ext & Hx1 & _ & _ & _ & Hcom & _).
    destruct (accept_inv_full _ _ _ _ _ _ Hacc)
      as (b2 & data' & ext' & rects & Hx2 & _ & _ & _ & _ & _ & Hcs & Hbpc & _).
    simpl in Hx1, Hx2. rewrite Hx in Hx1, Hx2.
    injection Hx1 as <-. injection Hx2 as <-.
    destruct Hcom as (_ & _ & _ & Hw & Hh & _).
    repeat split; assumption.
Qed.

(** An image reported without a width is dropped, whatever its size. *)
Lemma image_missing_keys_use_defaults_witness :
  snd (image_body (Sample.env_of Sample.unsized) Sample.unsized None 100 0
         (Sample.image_page [5]) 0 {| img_xref := 5 |}) = None.
Proof.
  apply (image_missing_keys_use_defaults (Sample.env_of Sample.unsized)
           Sample.unsized None 100 0 (Sample.image_page [5]) 0
           {| img_xref := 5 |} Sample.unsized_picture eq_refl).
  - left. reflexivity.
  - lia.
Defined.

(** X13. One bad image does not stop the run.  When [extract_image]
    raises or returns nothing, when the dictionary lacks [image] or
    [ext], when [get_image_rects] raises, or when the file cannot be
    written, the entry is skipped: the list and the count stay as they
    were, no file is written, and the loop goes on with the next
    entry. *)
Theorem image_failures_are_skipped
    env doc output_dir max_images min_size page_num page img_index img_info
    rest st :
  total_extracted st < max_images ->
  extract_image doc (img_xref img_info) = ExRaises \/
  extract_image doc (img_xref img_info) = ExFalsy \/
  (exists b,
     extract_image doc (img_xref img_info) = ExDict b /\
     (bi_image b = None \/ bi_ext b = None \/
      get_image_rects page (img_xref img_info) = None \/
      exists ext,
        bi_ext b = Some ext /\
        output_dir_truthy output_dir = true /\
        write_ok env (path_join (dir_value output_dir)
                        (make_filename page_num img_index ext)) = false)) ->
  exists tr,
    writes tr = [] /\
    image_loop env doc output_dir max_images min_size page_num page
      ((img_index, img_info) :: rest) st
    = image_loop env doc output_dir max_images min_size page_num page rest
        {| images_data := images_data st;
           total_extracted := total_extracted st;
           trace := trace st ++ tr |}.
Proof.
  intros Hroom Hfail.
  set (c := (page_num, page, (img_index, img_info)) : candidate).
  assert (Hnone : accept env doc output_dir min_size c = None).
  { unfold accept, image_body. simpl.
    destruct Hfail as [-> | [-> | (b & -> & Hb)]]; try reflexivity.
    destruct Hb as [-> | [He | [Hr | (ext & He & Ht & Hw)]]].
    - reflexivity.
    - rewrite He. now destruct (bi_image b).
    - rewrite Hr. destruct (bi_image b), (bi_ext b); try reflexivity.
      now destruct (too_small _ _ _).
    - rewrite He, Ht, Hw. destruct (bi_image b); [|reflexivity].
      destruct (too_small _ _ _); [reflexivity|].
      now destruct (get_image_rects page _). }
  exists (fst (image_body env doc output_dir min_size page_num page
                 img_index img_info)).
  split.
  - exact (rejected_writes_nothing env doc output_dir min_size c Hnone).
  - cbn [image_loop].
    destruct (Z.geb_spec (total_extracted st) max_images); [lia|].
    unfold accept in Hnone. simpl in Hnone.
    unfold image_step. rewrite Hnone. reflexivity.
Qed.

(** The sample document with damaged objects: the first entry raises and
    the loop goes on to the others. *)
Lemma image_failures_are_skipped_witness :
  exists tr,
    writes tr = [] /\
    image_loop (Sample.env_of Sample.damaged) Sample.damaged None 50 100
      0 (Sample.image_page [1; 2; 3; 4])
      (enumerate_from 0 (get_images (Sample.image_page [1; 2; 3; 4])))
      initial_state
    = image_loop (Sample.env_of Sample.damaged) Sample.damaged None 50 100
        0 (Sample.image_page [1; 2; 3; 4])
        (enumerate_from 1 (tl (get_images (Sample.image_page [1; 2; 3; 4]))))
        {| images_data := []; total_extracted := 0; trace := [] ++ tr |}.
Proof.
  apply (image_failures_are_skipped (Sample.env_of Sample.damaged)
           Sample.damaged None 50 100 0 (Sample.image_page [1; 2; 3; 4])
           0 {| img_xref := 1 |}
           (enumerate_from 1
              (tl (get_images (Sample.image_page [1; 2; 3; 4]))))
           initial_state).
  - simpl. lia.
  - left. reflexivity.
Defined.

End ImageEdges.

(** ** The image extractor's [main] *)

Lemma exit_status_zero result :
  exit_status result = 0 <-> get_bool "success" result = Some true.
Proof.
  unfold exit_status, get_bool.
  destruct (dict_get "success" result) as [[| [] | | | | |]|];
    split; intros E; try discriminate; reflexivity.
Qed.

Section ImageMain.

Import ImageExtractor.

Lemma run_extraction_outputs env pdf_path output_dir before :
  exists result,
    prints (effects (run_extraction env pdf_path output_dir before))
      = prints before ++ [PDict result] /\
    exit_code (run_extraction env pdf_path output_dir before)
      = exit_status result /\
    hd_error (effects (run_extraction env pdf_path output_dir before))
      = hd_error (before ++ [EOpen pdf_path]).
Proof.
  unfold run_extraction.
  pose proof (extract_images_prints env output_dir DEFAULT_MAX_IMAGES
                DEFAULT_MIN_SIZE pdf_path) as Hp.
  assert (Hhd : exists tl,
            fst (extract_images_from_pdf env pdf_path output_dir
                   DEFAULT_MAX_IMAGES DEFAULT_MIN_SIZE)
            = EOpen pdf_path :: tl).
  { unfold extract_images_from_pdf.
    destruct (fitz_open env pdf_path) as [d|e|d faults];
      [| |destruct (run_faulty env d output_dir DEFAULT_MAX_IMAGES
                      DEFAULT_MIN_SIZE faults)];
      eexists; reflexivity. }
  destruct (extract_images_from_pdf env pdf_path output_dir
              DEFAULT_MAX_IMAGES DEFAULT_MIN_SIZE) as [tr result].
  cbn [fst] in Hp, Hhd. destruct Hhd as (tl & Htl).
  exists result. cbn [effects exit_code].
  rewrite !prints_app, Hp. split; [reflexivity|]. split; [reflexivity|].
  rewrite Htl. destruct before; reflexivity.
Qed.

(** X14. The image extractor's [main] creates the output directory
    first, before the document is opened, and only when a directory was
    given, is not the empty string and does not exist.  If it cannot be
    created the run ends with status 1 and prints nothing: no result
    object, no call to the PDF library.  In every other run exactly one
    object is printed and the exit status is 0 exactly when it has
    [success] true. *)
Theorem image_main_outputs env argv :
  let cannot_create :=
    exists script pdf_path d rest,
      argv = script :: pdf_path :: d :: rest /\ d <> [] /\
      path_exists env d = false /\ makedirs_ok env d = false in
  (cannot_create ->
   stdout (main env argv) = [] /\
   exit_code (main env argv) = 1 /\
   existsb is_library_call (effects (main env argv)) = false) /\
  (~ cannot_create ->
   exists result,
     stdout (main env argv) = [PDict result] /\
     (exit_code (main env argv) = 0
      <-> get_bool "success" result = Some true)) /\
  (forall d,
     hd_error (effects (main env argv)) = Some (EMakedirs d) <->
     exists script pdf_path rest,
       argv = script :: pdf_path :: d :: rest /\ d <> [] /\
       path_exists env d = false).
Proof.
  intros cannot_create.
  assert (Htruthy : forall d : str, truthy d = true <-> d <> []).
  { intros [|c d]; simpl; split; intros H; try discriminate; auto. }
  destruct argv as [|script [|pdf_path [|d rest]]].
  - (* no argument at all *)
    split; [|split].
    + intros (? & ? & ? & ? & E & _). discriminate.
    + intros _. eexists. split; [reflexivity|]. simpl. split; discriminate.
    + intros d. simpl. split; [discriminate|].
      intros (? & ? & ? & E & _). discriminate.
  - split; [|split].
    + intros (? & ? & ? & ? & E & _). discriminate.
    + intros _. eexists. split; [reflexivity|]. simpl. split; discriminate.
    + intros d. simpl. split; [discriminate|].
      intros (? & ? & ? & E & _). discriminate.
  - (* a path, no directory *)
    unfold main, stdout. simpl.
    destruct (run_extraction_outputs env pdf_path None [])
      as (result & Hp & Hc & Hh).
    split; [|split].
    + intros (? & ? & ? & ? & E & _). discriminate.
    + intros _. exists result. split; [exact Hp|].
      rewrite Hc. apply exit_status_zero.
    + intros d. rewrite Hh. simpl. split; [discriminate|].
      intros (? & ? & ? & E & _). discriminate.
  - (* a path and a directory *)
    unfold main, stdout.
    change (output_dir_arg (script :: pdf_path :: d :: rest)) with (Some d).
    cbn [output_dir_truthy dir_value].
    destruct (truthy d) eqn:Ht; cbn [andb].
    + apply Htruthy in Ht.
      destruct (path_exists env d) eqn:Hex; cbn [negb].
      * destruct (run_extraction_outputs env pdf_path (Some d) [])
          as (result & Hp & Hc & Hh).
        split; [|split].
        -- intros (? & ? & ? & ? & E & _ & Hex' & _).
           injection E as _ _ <- _. congruence.
        -- intros _. exists result. split; [exact Hp|].
           rewrite Hc. apply exit_status_zero.
        -- intros d'. rewrite Hh. simpl. split; [discriminate|].
           intros (? & ? & ? & E & _ & Hex').
           injection E as _ _ <- _. congruence.
      * destruct (makedirs_ok env d) eqn:Hmk.
        -- destruct (run_extraction_outputs env pdf_path (Some d)
                       [EMakedirs d]) as (result & Hp & Hc & Hh).
           split; [|split].
           ++ intros (? & ? & ? & ? & E & _ & _ & Hmk').
              injection E as _ _ <- _. congruence.
           ++ intros _. exists result. split; [exact Hp|].
              rewrite Hc. apply exit_status_zero.
           ++ intros d'. rewrite Hh. simpl. split.
              ** intros E. injection E as <-. exists script, pdf_path, rest.
                 auto.
              ** intros (? & ? & ? & E & _). now injection E as _ _ <- _.
        -- simpl. split; [|split].
           ++ intros _. auto.
           ++ intros Hno. exfalso. apply Hno.
              exists script, pdf_path, d, rest. auto.
           ++ intros d'. split.
              ** intros E. injection E as <-. exists script, pdf_path, rest.
                 auto.
              ** intros (? & ? & ? & E & _). now injection E as _ _ <- _.
    + destruct (run_extraction_outputs env pdf_path (Some d) [])
        as (result & Hp & Hc & Hh).
      assert (Hd : d = []) by (destruct d; [reflexivity | discriminate]).
      split; [|split].
      * intros (? & ? & ? & ? & E & Hne & _).
        injection E as _ _ <- _. contradiction.
      * intros _. exists result. split; [exact Hp|].
        rewrite Hc. apply exit_status_zero.
      * intros d'. rewrite Hh. simpl. split; [discriminate|].
        intros (? & ? & ? & E & Hne & _).
        injection E as _ _ <- _. contradiction.
Qed.

(** A directory that is missing and cannot be created: nothing is
    printed. *)
Lemma image_main_outputs_witness :
  stdout (main (Sample.read_only_env Sample.album)
            [Sample.script; Sample.pdf; Sample.out_dir]) = [] /\
  exit_code (main (Sample.read_only_env Sample.album)
               [Sample.script; Sample.pdf; Sample.out_dir]) = 1.
Proof.
  destruct (image_main_outputs (Sample.read_only_env Sample.album)
              [Sample.script; Sample.pdf; Sample.out_dir]) as (Hcrash & _).
  destruct Hcrash as (Hs & Hc & _).
  - exists Sample.script, Sample.pdf, Sample.out_dir, [].
    repeat split; try reflexivity. vm_compute. discriminate.
  - split; [exact Hs | exact Hc].
Defined.

End ImageMain.

(** * Calls that raise after the document has opened *)

Lemma enumerate_from_app {A} (l1 l2 : list A) i :
  enumerate_from i (l1 ++ l2)
  = enumerate_from i l1 ++ enumerate_from (i + len l1) l2.
Proof.
  revert i. induction l1 as [|a l1 IH]; intros i; simpl.
  - unfold len. simpl. now rewrite Z.add_0_r.
  - rewrite IH. do 3 f_equal. unfold len. simpl length. lia.
Qed.

Lemma enumerate_from_range {A} (l : list A) i it :
  In it (enumerate_from i l) -> i <= fst it < i + len l.
Proof.
  destruct it as [n a]. intros H. apply enumerate_from_In in H.
  destruct H as [Hle Hn]. simpl.
  assert ((Z.to_nat (n - i) < length l)%nat)
    by (apply nth_error_Some; rewrite Hn; discriminate).
  unfold len. lia.
Qed.

(** ** The text extractor *)

Section TextAfterOpen.

Import TextExtractor.

Variable faults : Faults.

Let quiet (items : list (Z * Page)) : Prop :=
  forall it, In it items ->
    load_raises faults (fst it) = None /\ text_raises faults (fst it) = None.

(** Over pages whose calls return, the loop on a faulty document is the
    loop. *)
Lemma text_loop_faulty_app items1 items2 st :
  quiet items1 ->
  page_loop_faulty faults (items1 ++ items2) st
  = page_loop_faulty faults items2 (page_loop items1 st).
Proof.
  revert st. induction items1 as [|[n page] rest IH]; intros st Hq; simpl;
    [reflexivity|].
  destruct (Hq (n, page) (or_introl eq_refl)) as [Hl Ht].
  simpl in Hl, Ht. rewrite Hl, Ht.
  apply IH. intros it Hit. apply Hq. now right.
Qed.

Lemma text_loop_faulty_quiet items st :
  quiet items -> page_loop_faulty faults items st = Returned (page_loop items st).
Proof.
  intros Hq. rewrite <- (app_nil_r items) at 1.
  now rewrite text_loop_faulty_app.
Qed.

End TextAfterOpen.

Section TextAfterOpenResults.

Import TextExtractor.

(** When every call returns, the run is the run on a sound document. *)
Lemma extract_text_when_calls_return env pdf_path doc :
  text_calls_return (fitz_open env pdf_path) doc ->
  extract_text_from_pdf env pdf_path
  = finish pdf_path (len (doc_pages doc)) (run_loop doc).
Proof.
  unfold extract_text_from_pdf.
  intros [Ho | (faults & Ho & Hlen & Hclose & Hq)]; rewrite Ho;
    [reflexivity|].
  unfold run_faulty. rewrite Hlen, text_loop_faulty_quiet, Hclose;
    [reflexivity|].
  intros it Hit. apply enumerate_from_range in Hit. apply Hq. lia.
Qed.

(** X3. What the text extractor calls on an opened document.  When every
    call returns, each page is loaded and read exactly once, in page
    order, whether its text is kept or not, and the document is then
    closed, for a success and for the no-text failure alike.  When
    loading or reading page [k] is the first call to raise, the pages
    before [k] have been read, nothing is called after the call that
    raised, so the document is not closed, and the result is the failure
    of the last handler, with [str(e)] and without [pageCount]. *)
Theorem text_calls_on_the_document env pdf_path doc :
  (text_calls_return (fitz_open env pdf_path) doc ->
   fst (extract_text_from_pdf env pdf_path) =
     [EOpen pdf_path]
       ++ flat_map (fun it => [ELoadPage (fst it); EGetText (fst it)])
            (enumerate_from 0 (doc_pages doc))
       ++ [EClose]) /\
  (forall faults before page after e,
     fitz_open env pdf_path = OpenedFaulty doc faults ->
     len_raises faults = None ->
     doc_pages doc = before ++ page :: after ->
     (forall n, 0 <= n < len before ->
        load_raises faults n = None /\ text_raises faults n = None) ->
     load_raises faults (len before) = Some e \/
     (load_raises faults (len before) = None /\
      text_raises faults (len before) = Some e) ->
     extract_text_from_pdf env pdf_path =
       ([EOpen pdf_path]
          ++ flat_map (fun it => [ELoadPage (fst it); EGetText (fst it)])
               (enumerate_from 0 before)
          ++ last_calls EGetText faults (len before),
        [("success", PBool false);
         ("error", PStr (lit (if is_FileDataError e
                              then "Invalid or corrupted PDF file: "
                              else if is_EmptyFileError e
                                   then "PDF file is empty: "
                                   else "Unable to parse PDF: ")
                         ++ exc_str e));
         ("method", PStr (lit "pymupdf"))])).
Proof.
  split.
  - intros Hret. rewrite (extract_text_when_calls_return _ _ _ Hret).
    assert (E : trace (run_loop doc)
                = page_reads (enumerate_from 0 (doc_pages doc)))
      by (unfold run_loop; now rewrite text_loop_trace).
    unfold finish. destruct (negb _ || _); cbn [fst]; rewrite E; reflexivity.
  - intros faults before page after e Ho Hlen Hpages Hq Hraise.
    unfold extract_text_from_pdf. rewrite Ho. unfold run_faulty.
    rewrite Hlen, Hpages, enumerate_from_app, text_loop_faulty_app.
    2:{ intros it Hit. apply enumerate_from_range in Hit. apply Hq. lia. }
    rewrite Z.add_0_l. cbn [enumerate_from page_loop_faulty].
    rewrite text_loop_trace. unfold last_calls, open_failure.
    destruct Hraise as [Hl | [Hl Ht]]; rewrite Hl; [|rewrite Ht];
      cbn [initial_state trace app];
      destruct (is_FileDataError e), (is_EmptyFileError e); reflexivity.
Qed.

(** The sample report: its three pages are read and it is closed.  With
    its second page torn: page 1 is read, reading page 2 raises, the
    document is not closed. *)
Lemma text_calls_on_the_document_witness :
  fst (extract_text_from_pdf (Sample.env_of Sample.report) Sample.pdf) =
    [EOpen Sample.pdf; ELoadPage 0; EGetText 0; ELoadPage 1; EGetText 1;
     ELoadPage 2; EGetText 2; EClose] /\
  extract_text_from_pdf (Sample.torn_env Sample.report) Sample.pdf =
    ([EOpen Sample.pdf; ELoadPage 0; EGetText 0; ELoadPage 1; EGetText 1],
     [("success", PBool false);
      ("error", PStr (lit "Unable to parse PDF: bad xref"));
      ("method", PStr (lit "pymupdf"))]).
Proof.
  split.
  - exact (proj1 (text_calls_on_the_document (Sample.env_of Sample.report)
                    Sample.pdf Sample.report) (or_introl eq_refl)).
  - destruct (text_calls_on_the_document (Sample.torn_env Sample.report)
                Sample.pdf Sample.report) as (_ & Hraise).
    apply (Hraise Sample.torn_faults [Sample.text_page (repeat 97%N 60)]
             (Sample.text_page (lit "   "))
             [Sample.text_page (repeat 98%N 70)]
             {| is_FileDataError := false; is_EmptyFileError := false;
                exc_str := lit "bad xref" |}); try reflexivity.
    + intros n Hn.
      assert (n = 0) as -> by (unfold len in Hn; simpl in Hn; lia).
      split; reflexivity.
    + right. split; reflexivity.
Defined.

End TextAfterOpenResults.

(** ** The image extractor *)

Section ImageAfterOpen.

Import ImageExtractor.

Variables (env : Env) (doc : Document) (output_dir : option str).
Variables (max_images min_size : Z) (faults : Faults).

Let quiet (items : list (Z * Page)) : Prop :=
  forall it, In it items ->
    load_raises faults (fst it) = None /\ images_raises faults (fst it) = None.

(** Over pages whose calls return, the loop on a faulty document is the
    loop. *)
Lemma image_loop_faulty_app items1 items2 st :
  quiet items1 ->
  page_loop_faulty env doc output_dir max_images min_size faults
    (items1 ++ items2) st
  = page_loop_faulty env doc output_dir max_images min_size faults items2
      (page_loop env doc output_dir max_images min_size items1 st).
Proof.
  revert st. induction items1 as [|[n page] rest IH]; intros st Hq; simpl;
    [reflexivity|].
  destruct (Z.geb_spec (total_extracted st) max_images) as [Hfull|Hroom].
  - destruct items2 as [|[n2 page2] rest2]; simpl; [reflexivity|].
    destruct (Z.geb_spec (total_extracted st) max_images); [reflexivity|lia].
  - destruct (Hq (n, page) (or_introl eq_refl)) as [Hl Hi].
    simpl in Hl, Hi. rewrite Hl, Hi.
    apply IH. intros it Hit. apply Hq. now right.
Qed.


End ImageAfterOpen.

Section ImageAfterOpenResults.

Import ImageExtractor.





(** X15. What the image extractor does when a page call raises on an
    opened document.  Let page [k] be the first page whose loading or
    image listing raises.  If the cap has not been reached after the pages
    before [k], the run ends at the call that raised: the document is not
    closed, the result is the failure of the handler that matches, with
    [str(e)], the records gathered so far are dropped, and the files
    already written stay.  If the cap has been reached before page [k],
    that page is never loaded and the result is the success built from
    the pages before it. *)
Theorem image_calls_on_the_document
    env pdf_path output_dir max_images min_size doc faults before page after :
  fitz_open env pdf_path = OpenedFaulty doc faults ->
  len_raises faults = None ->
  doc_pages doc = before ++ page :: after ->
  (forall n, 0 <= n < len before ->
     load_raises faults n = None /\ images_raises faults n = None) ->
  let st := page_loop env doc output_dir max_images min_size
              (enumerate_from 0 before) initial_state in
  (forall e,
     total_extracted st < max_images ->
     load_raises faults (len before) = Some e \/
     (load_raises faults (len before) = None /\
      images_raises faults (len before) = Some e) ->
     extract_images_from_pdf env pdf_path output_dir max_images min_size =
       ([EOpen pdf_path] ++ trace st
          ++ last_calls EGetImages faults (len before),
        [("success", PBool false);
         ("error", PStr (lit (if is_FileDataError e
                              then "Invalid or corrupted PDF file: "
                              else if is_EmptyFileError e
                                   then "PDF file is empty: "
                                   else "Unable to extract images: ")
                         ++ exc_str e));
         ("method", PStr (lit "pymupdf"))])) /\
  (max_images <= total_extracted st ->
   close_raises faults = None ->
   extract_images_from_pdf env pdf_path output_dir max_images min_size =
     ([EOpen pdf_path] ++ trace st ++ [EClose],
      [("success", PBool true);
       ("images", PList (map PDict (images_data st)));
       ("totalImages", PInt (total_extracted st));
       ("pageCount", PInt (len (doc_pages doc)));
       ("method", PStr (lit "pymupdf"))])).
Proof.
  intros Ho Hlen Hpages Hq st.
  assert (Hloop :
    page_loop_faulty env doc output_dir max_images min_size faults
      (enumerate_from 0 (doc_pages doc)) initial_state
    = page_loop_faulty env doc output_dir max_images min_size faults
        ((len before, page) :: enumerate_from (len before + 1) after) st).
  { rewrite Hpages, enumerate_from_app, image_loop_faulty_app.
    - rewrite Z.add_0_l. reflexivity.
    - intros it Hit. apply enumerate_from_range in Hit. apply Hq. lia. }
  split.
  - intros e Hroom Hraise.
    unfold extract_images_from_pdf. rewrite Ho. unfold run_faulty.
    rewrite Hlen, Hloop. cbn [page_loop_faulty].
    destruct (Z.geb_spec (total_extracted st) max_images); [lia|].
    unfold last_calls, open_failure.
    destruct Hraise as [Hl | [Hl Hi]]; rewrite Hl; [|rewrite Hi];
      destruct (is_FileDataError e), (is_EmptyFileError e); reflexivity.
  - intros Hfull Hclose.
    unfold extract_images_from_pdf. rewrite Ho. unfold run_faulty.
    rewrite Hlen, Hloop. cbn [page_loop_faulty].
    destruct (Z.geb_spec (total_extracted st) max_images); [|lia].
    rewrite Hclose. reflexivity.
Qed.

(** The sample brochure with its second page torn, written to a
    directory: the logo of page 1 is written, listing the images of page 2
    raises, the document is not closed and the result names no image. *)
Lemma image_calls_on_the_document_witness :
  extract_images_from_pdf (Sample.torn_env Sample.brochure) Sample.pdf
    (Some Sample.out_dir) 50 100 =
    ([EOpen Sample.pdf; ELoadPage 0; EGetImages 0; EExtractImage 12;
      EGetImageRects 0 12;
      EWriteFile (lit "out/page_1_img_0.png") [x89; x50; x4e; x47; x0d];
      ELoadPage 1; EGetImages 1],
     [("success", PBool false);
      ("error", PStr (lit "Unable to extract images: bad xref"));
      ("method", PStr (lit "pymupdf"))]).
Proof.
  destruct (image_calls_on_the_document (Sample.torn_env Sample.brochure)
              Sample.pdf (Some Sample.out_dir) 50 100 Sample.brochure
              Sample.torn_faults [Sample.image_page [12]]
              (Sample.image_page [12]) [] eq_refl eq_refl eq_refl)
    as [Hraise _].
  - intros n Hn. assert (n = 0) as -> by (unfold len in Hn; simpl in Hn; lia).
    split; reflexivity.
  - apply (Hraise {| is_FileDataError := false; is_EmptyFileError := false;
                     exc_str := lit "bad xref" |}).
    + vm_compute. reflexivity.
    + right. split; reflexivity.
Defined.

End ImageAfterOpenResults.
